(** * A shallow embedding of the auction-house web viewer (main.go)

    The program is a read-only HTTP front end over four tables of a
    relational store.  Every handler runs one or two fixed SQL queries,
    scans the rows into Go structs and writes a JSON body.  The embedding
    keeps that shape:

    - Go's [int] is a 64-bit integer, modelled as [Z] with the wrap-around
      of the two arithmetic expressions of the handlers written out;
    - the tables are lists of records, the queries are functions over
      them (left joins, WHERE, ORDER BY, LIMIT/OFFSET, aggregates), a
      nullable column is an [option];
    - ORDER BY fixes the order of the rows by their key only: rows of
      equal key come out in an order that the store chooses anew for
      every statement;
    - every statement of a request meets the store in a state of its own,
      with a clock of its own;
    - [rows.Scan] is a function into a sum type: scanning NULL into an
      [int] or a [string] destination is an error;
    - a handler returns the response it writes together with the trace of
      the queries it sent and the lines it logged. *)

From Stdlib Require Import ZArith List String Ascii Bool Lia DecimalString Sorted.
From Stdlib Require Import DecimalPos Permutation.
Import ListNotations.
Local Open Scope string_scope.
Local Open Scope list_scope.
Local Open Scope Z_scope.

(** ** Go integers *)

Module GoInt.

Definition min_int : Z := - 2 ^ 63.
Definition max_int : Z := 2 ^ 63 - 1.

Definition fits (z : Z) : bool := (min_int <=? z) && (z <=? max_int).

(** Two's complement wrap-around of a 64-bit signed result. *)
Definition wrap (z : Z) : Z := (z + 2 ^ 63) mod 2 ^ 64 - 2 ^ 63.

Definition sub (a b : Z) : Z := wrap (a - b).
Definition mul (a b : Z) : Z := wrap (a * b).

(** [fmt.Sprintf("%d", z)]: decimal digits, a leading minus sign for
    negative numbers. *)
Definition itoa (z : Z) : string := NilZero.string_of_int (Z.to_int z).

End GoInt.

(** ** strconv.Atoi

    The library function, on a 64-bit platform, as the handler uses it:
    the handler drops the error and keeps the number.  A string of 1 to
    18 characters takes the fast path; the empty string and every longer
    one go through ParseInt and ParseUint. *)

Module Strconv.

Inductive NumError := ErrSyntax | ErrRange.

Definition digit (c : ascii) : option Z :=
  let n := Z.of_nat (nat_of_ascii c) in
  if (48 <=? n) && (n <=? 57) then Some (n - 48) else None.

(** The digit loop of the fast path: the value of a run of digits, most
    significant first; any other character ends it with a syntax
    error. *)
Fixpoint digits (acc : Z) (s : string) : option Z :=
  match s with
  | EmptyString => Some acc
  | String c s' =>
      match digit c with
      | Some d => digits (acc * 10 + d) s'
      | None => None
      end
  end.

Definition unsigned (s : string) : option Z :=
  match s with
  | EmptyString => None
  | _ => digits 0 s
  end.

(** The fast path: a sign, then at least one digit and digits only.  A
    number of at most 18 digits cannot leave 64 bits, so no range is
    checked. *)
Definition fast (s : string) : Z * option NumError :=
  match s with
  | EmptyString => (0, Some ErrSyntax)
  | String c s' =>
      let body := if Ascii.eqb c "-" || Ascii.eqb c "+" then s' else s in
      match unsigned body with
      | Some n => (if Ascii.eqb c "-" then - n else n, None)
      | None => (0, Some ErrSyntax)
      end
  end.

Definition maxUint64 : Z := 2 ^ 64 - 1.

(** The smallest [n] such that [n * 10] leaves 64 bits. *)
Definition cutoff : Z := maxUint64 / 10 + 1.

(** The loop of ParseUint in base 10: a character that is no digit is a
    syntax error; at the digit where the value leaves 64 bits the loop
    returns the range error, and what follows is not read. *)
Fixpoint uint_loop (n : Z) (s : string) : Z * option NumError :=
  match s with
  | EmptyString => (n, None)
  | String c s' =>
      match digit c with
      | None => (0, Some ErrSyntax)
      | Some d =>
          if cutoff <=? n then (maxUint64, Some ErrRange)
          else if maxUint64 <? n * 10 + d then (maxUint64, Some ErrRange)
          else uint_loop (n * 10 + d) s'
      end
  end.

Definition ParseUint (s : string) : Z * option NumError :=
  match s with
  | EmptyString => (0, Some ErrSyntax)
  | _ => uint_loop 0 s
  end.

(** ParseInt in base 10, 64 bits: the sign is taken off, the rest goes to
    ParseUint; its syntax error is passed on with 0, and a magnitude out
    of range gives the nearest bound with a range error. *)
Definition ParseInt (s : string) : Z * option NumError :=
  match s with
  | EmptyString => (0, Some ErrSyntax)
  | String c s' =>
      let neg := Ascii.eqb c "-" in
      let body := if Ascii.eqb c "+" || neg then s' else s in
      match ParseUint body with
      | (_, Some ErrSyntax) => (0, Some ErrSyntax)
      | (un, _) =>
          if negb neg && (2 ^ 63 <=? un) then (2 ^ 63 - 1, Some ErrRange)
          else if neg && (2 ^ 63 <? un) then (- 2 ^ 63, Some ErrRange)
          else (if neg then - un else un, None)
      end
  end.

Definition Atoi (s : string) : Z * option NumError :=
  let sLen := Z.of_nat (String.length s) in
  if (0 <? sLen) && (sLen <? 19) then fast s else ParseInt s.

End Strconv.

(** ** The view models of main.go *)

Record AuctionItem := mkAuctionItem {
  ID : Z;
  HouseID : Z;
  ItemGUID : Z;
  ItemOwner : Z;
  BuyoutPrice : Z;
  Time : Z;
  BuyGUID : Z;
  LastBid : Z;
  StartBid : Z;
  Deposit : Z;
  ItemEntry : Z;
  ItemName : string;
  OwnerName : string;
  Count : Z;
  Quality : Z;
  ItemLevel : Z;
  TimeLeft : string
}.

Record AuctionHouseStats := mkAuctionHouseStats {
  TotalItems : Z;
  TotalValue : Z;
  ActiveBids : Z;
  UniqueOwners : Z;
  UniqueItems : Z
}.

Record Seller := mkSeller {
  Name : string;
  TotalAuctions : Z;
  SellerTotalValue : Z;
  SellerUniqueItems : Z
}.

(** ** formatTimeLeft

    Go's [/] and [%] on [int] truncate toward zero: [Z.quot], [Z.rem]. *)

Definition formatTimeLeft (seconds : Z) : string :=
  if seconds <=? 0 then "Expired"
  else
    let days := Z.quot seconds 86400 in
    let hours := Z.quot (Z.rem seconds 86400) 3600 in
    let minutes := Z.quot (Z.rem seconds 3600) 60 in
    if 0 <? days then (GoInt.itoa days ++ "d " ++ GoInt.itoa hours ++ "h")%string
    else if 0 <? hours then (GoInt.itoa hours ++ "h " ++ GoInt.itoa minutes ++ "m")%string
    else (GoInt.itoa minutes ++ "m")%string.


(** ** The backing store

    The four tables belong to the game server; the program only reads
    them.  A row carries the columns the queries name.  The Go side scans
    every base column into an [int] or a [string] without a NULL guard, so
    the base columns are not nullable here; NULL only arises from a left
    join that finds no partner, or from an aggregate over no rows. *)

Module Sql.

Record auctionhouse_row := mk_ah {
  ah_id : Z;
  ah_houseid : Z;
  ah_itemguid : Z;
  ah_itemowner : Z;
  ah_buyoutprice : Z;
  ah_time : Z;
  ah_buyguid : Z;
  ah_lastbid : Z;
  ah_startbid : Z;
  ah_deposit : Z
}.

Record item_instance_row := mk_ii {
  ii_guid : Z;
  ii_itemEntry : Z;
  ii_count : Z
}.

Record characters_row := mk_c {
  c_guid : Z;
  c_name : string
}.

Record item_template_row := mk_it {
  it_entry : Z;
  it_name : string;
  it_Quality : Z;
  it_ItemLevel : Z
}.

Record Database := mk_db {
  auctionhouse : list auctionhouse_row;
  item_instance : list item_instance_row;
  characters : list characters_row;
  item_template : list item_template_row
}.

(** *** Relational operators *)

(** [l LEFT JOIN r ON on]: one output row per partner, and one
    NULL-padded row when there is none. *)
Definition left_join {A B C : Type} (on : A -> B -> bool)
    (pair : A -> option B -> C) (l : list A) (r : list B) : list C :=
  flat_map
    (fun a =>
       match filter (on a) r with
       | [] => [pair a None]
       | ms => map (fun b => pair a (Some b)) ms
       end) l.

(** Insertion sort; it keeps the order of the rows that compare equal. *)
Fixpoint insert_by {A : Type} (le : A -> A -> bool) (x : A) (l : list A)
    : list A :=
  match l with
  | [] => [x]
  | h :: t => if le x h then x :: l else h :: insert_by le x t
  end.

Definition sort_by {A : Type} (le : A -> A -> bool) (l : list A) : list A :=
  fold_right (insert_by le) [] l.

(** The order in which the server happens to hold the rows of a result
    before it sorts them: [ties i] is the rank it gives to the [i]-th
    row, and the rows are taken by rank.  Every choice of ranks gives a
    rearrangement of the rows, and every rearrangement comes from a
    choice of ranks. *)
Definition arrange {A : Type} (ties : nat -> nat) (l : list A) : list A :=
  map snd
    (sort_by (fun x y => Nat.leb (fst x) (fst y))
       (combine (map ties (seq 0 (List.length l))) l)).

(** [ORDER BY]: the rows come out by key.  The statements give no
    tie-breaker, so rows with equal keys come out in the order the server
    held them, which may differ from one statement to the next. *)
Definition order_by {A : Type} (le : A -> A -> bool) (ties : nat -> nat)
    (l : list A) : list A :=
  sort_by le (arrange ties l).

(** [LIMIT n]: the first [n] rows. *)
Fixpoint limit_rows {A : Type} (n : Z) (l : list A) : list A :=
  match l with
  | [] => []
  | x :: t => if n <=? 0 then [] else x :: limit_rows (n - 1) t
  end.

(** [OFFSET m]: the rows after the first [m]. *)
Fixpoint offset_rows {A : Type} (m : Z) (l : list A) : list A :=
  match l with
  | [] => []
  | x :: t => if m <=? 0 then l else offset_rows (m - 1) t
  end.

(** [COALESCE(v, d)]. *)
Definition coalesce {A : Type} (v : option A) (d : A) : option A :=
  match v with
  | Some x => Some x
  | None => Some d
  end.

(** Three-valued [OR]; [None] is SQL's UNKNOWN. *)
Definition sql_or (a b : option bool) : option bool :=
  match a, b with
  | Some true, _ | _, Some true => Some true
  | Some false, Some false => Some false
  | _, _ => None
  end.

(** A WHERE clause keeps a row only when its condition is TRUE. *)
Definition holds (v : option bool) : bool :=
  match v with
  | Some true => true
  | _ => false
  end.

(** Values of a column with the NULLs dropped. *)
Definition non_null {A : Type} (l : list (option A)) : list A :=
  flat_map (fun v => match v with Some x => [x] | None => [] end) l.

(** The distinct values of a list, in order of first occurrence. *)
Fixpoint distinct {A : Type} (eqb : A -> A -> bool) (l : list A) : list A :=
  match l with
  | [] => []
  | x :: t => x :: filter (fun y => negb (eqb x y)) (distinct eqb t)
  end.

(** [COUNT(DISTINCT col)]: NULLs are not counted. *)
Definition count_distinct (l : list (option Z)) : Z :=
  Z.of_nat (List.length (distinct Z.eqb (non_null l))).

(** [SUM(col)]: NULL over no rows. *)
Definition sum (l : list Z) : option Z :=
  match l with
  | [] => None
  | _ => Some (fold_right Z.add 0 l)
  end.

(** *** LIKE

    [%] matches any run of characters, [_] exactly one, a backslash
    takes the next pattern character literally. *)

(** Modelled from the spec: the collation of the name columns, which
    decides how LIKE compares letters, belongs to the declaration of the
    tables and is not in the repository.  The specification calls the
    match case-insensitive; the model folds the ASCII capitals. *)
Definition lower (c : ascii) : ascii :=
  let n := nat_of_ascii c in
  if (Nat.leb 65 n && Nat.leb n 90)%bool then ascii_of_nat (n + 32) else c.

Definition ci_eqb (a b : ascii) : bool := Ascii.eqb (lower a) (lower b).

Definition literal (c : ascii) (k : list ascii -> bool) (s : list ascii)
    : bool :=
  match s with
  | [] => false
  | x :: s' => ci_eqb c x && k s'
  end.

Fixpoint like_chars (p : list ascii) : list ascii -> bool :=
  match p with
  | [] => fun s => match s with [] => true | _ => false end
  | c :: p' =>
      if Ascii.eqb c "%" then
        fix any (s : list ascii) : bool :=
          like_chars p' s || match s with [] => false | _ :: s' => any s' end
      else if Ascii.eqb c "_" then
        fun s => match s with [] => false | _ :: s' => like_chars p' s' end
      else if Ascii.eqb c "\" then
        match p' with
        | [] => literal c (like_chars p')
        | d :: p'' => literal d (like_chars p'')
        end
      else literal c (like_chars p')
  end.

(** [col LIKE pattern]; UNKNOWN on a NULL column. *)
Definition like (col : option string) (pattern : string) : option bool :=
  match col with
  | None => None
  | Some s =>
      Some (like_chars (list_ascii_of_string pattern) (list_ascii_of_string s))
  end.

(** *** The FROM clause of the listing and search queries *)

Record joined := mk_joined {
  j_ah : auctionhouse_row;
  j_ii : option item_instance_row;
  j_c : option characters_row;
  j_it : option item_template_row
}.

Definition ah_ii (db : Database)
    : list (auctionhouse_row * option item_instance_row) :=
  left_join (fun ah ii => ah_itemguid ah =? ii_guid ii) pair
    (auctionhouse db) (item_instance db).

Definition ah_ii_c (db : Database)
    : list (auctionhouse_row * option item_instance_row
            * option characters_row) :=
  left_join (fun x c => ah_itemowner (fst x) =? c_guid c) pair
    (ah_ii db) (characters db).

Definition from_listing (db : Database) : list joined :=
  left_join
    (fun x it =>
       match snd (fst x) with
       | Some ii => ii_itemEntry ii =? it_entry it
       | None => false
       end)
    (fun x it => mk_joined (fst (fst x)) (snd (fst x)) (snd x) it)
    (ah_ii_c db) (item_template db).

(** [ah.time > UNIX_TIMESTAMP()]. *)
Definition live (now : Z) (ah : auctionhouse_row) : bool := now <? ah_time ah.

Definition time_asc (a b : joined) : bool :=
  ah_time (j_ah a) <=? ah_time (j_ah b).

(** The sixteen selected columns, in SELECT order: the ten columns of
    [ah], then [ii.itemEntry], [ii.count] and the four COALESCEd ones. *)
Record auction_columns := mk_cols {
  col_ah : auctionhouse_row;
  col_itemEntry : option Z;
  col_count : option Z;
  col_owner_name : option string;
  col_item_name : option string;
  col_quality : option Z;
  col_item_level : option Z
}.

Definition select_listing (j : joined) : auction_columns :=
  mk_cols (j_ah j)
    (option_map ii_itemEntry (j_ii j))
    (option_map ii_count (j_ii j))
    (coalesce (option_map c_name (j_c j)) "Unknown")
    (coalesce (option_map it_name (j_it j)) "Unknown Item")
    (coalesce (option_map it_Quality (j_it j)) 0)
    (coalesce (option_map it_ItemLevel (j_it j)) 0).

(** The rows of the listing query before LIMIT/OFFSET. *)
Definition listing_rows (ties : nat -> nat) (db : Database) (now : Z)
    : list joined :=
  order_by time_asc ties
    (filter (fun j => live now (j_ah j)) (from_listing db)).

(** The listing query.  A negative LIMIT or OFFSET argument is refused
    by the server. *)
Definition listing_query (limit offset : Z) (ties : nat -> nat)
    (db : Database) (now : Z) : option (list auction_columns) :=
  if (limit <? 0) || (offset <? 0) then None
  else Some (map select_listing
               (limit_rows limit
                  (offset_rows offset (listing_rows ties db now)))).

(** [(it.name LIKE ? OR c.name LIKE ?)]. *)
Definition search_condition (p1 p2 : string) (j : joined) : bool :=
  holds (sql_or (like (option_map it_name (j_it j)) p1)
                (like (option_map c_name (j_c j)) p2)).

Definition search_rows (p1 p2 : string) (ties : nat -> nat)
    (db : Database) (now : Z) : list joined :=
  order_by time_asc ties
    (filter (fun j => live now (j_ah j) && search_condition p1 p2 j)
       (from_listing db)).

Definition search_query (p1 p2 : string) (ties : nat -> nat)
    (db : Database) (now : Z) : option (list auction_columns) :=
  Some (map select_listing
          (limit_rows 100 (search_rows p1 p2 ties db now))).

(** *** The statistics queries *)

Record stats_columns := mk_stats_cols {
  col_total_items : option Z;
  col_total_value : option Z;
  col_unique_owners : option Z;
  col_unique_items : option Z
}.

Definition stats_rows (db : Database) (now : Z)
    : list (auctionhouse_row * option item_instance_row) :=
  filter (fun x => live now (fst x)) (ah_ii db).

(** An aggregate without GROUP BY yields exactly one row. *)
Definition stats_query (db : Database) (now : Z)
    : option (list stats_columns) :=
  let rows := stats_rows db now in
  Some [ mk_stats_cols
           (Some (Z.of_nat (List.length rows)))
           (sum (map (fun x => ah_buyoutprice (fst x)) rows))
           (Some (count_distinct (map (fun x => Some (ah_itemowner (fst x))) rows)))
           (Some (count_distinct (map (fun x => option_map ii_itemEntry (snd x)) rows))) ].

Definition bid_rows (db : Database) (now : Z) : list auctionhouse_row :=
  filter (fun ah => (0 <? ah_lastbid ah) && live now ah) (auctionhouse db).

Definition bid_query (db : Database) (now : Z) : option (list (option Z)) :=
  Some [ Some (Z.of_nat (List.length (bid_rows db now))) ].

(** *** The seller roll-up *)

Record seller_joined := mk_sj {
  sj_ah : auctionhouse_row;
  sj_c : option characters_row;
  sj_ii : option item_instance_row
}.

Definition from_sellers (db : Database) : list seller_joined :=
  left_join (fun x ii => ah_itemguid (fst x) =? ii_guid ii)
    (fun x ii => mk_sj (fst x) (snd x) ii)
    (left_join (fun ah c => ah_itemowner ah =? c_guid c) pair
       (auctionhouse db) (characters db))
    (item_instance db).

(** [c.name IS NOT NULL]. *)
Definition has_name (j : seller_joined) : bool :=
  match sj_c j with
  | Some _ => true
  | None => false
  end.

Definition seller_rows (db : Database) (now : Z) : list seller_joined :=
  filter (fun j => live now (sj_ah j) && has_name j) (from_sellers db).

(** The grouping key [ah.itemowner, c.name]. *)
Definition group_key (j : seller_joined) : Z * option string :=
  (ah_itemowner (sj_ah j), option_map c_name (sj_c j)).

Definition key_eqb (a b : Z * option string) : bool :=
  (fst a =? fst b) &&
  match snd a, snd b with
  | Some x, Some y => String.eqb x y
  | None, None => true
  | _, _ => false
  end.

Definition group_of (rows : list seller_joined) (k : Z * option string)
    : list seller_joined :=
  filter (fun j => key_eqb k (group_key j)) rows.

Record seller_columns := mk_seller_cols {
  col_seller_name : option string;
  col_total_auctions : option Z;
  col_seller_total_value : option Z;
  col_seller_unique_items : option Z
}.

Definition aggregate_group (rows : list seller_joined)
    (k : Z * option string) : seller_columns :=
  let g := group_of rows k in
  mk_seller_cols
    (snd k)
    (Some (Z.of_nat (List.length g)))
    (sum (map (fun j => ah_buyoutprice (sj_ah j)) g))
    (Some (count_distinct (map (fun j => option_map ii_itemEntry (sj_ii j)) g))).

(** Descending order on a nullable integer; NULL is the smallest value. *)
Definition null_ltb (a b : option Z) : bool :=
  match a, b with
  | None, Some _ => true
  | Some x, Some y => x <? y
  | _, None => false
  end.

Definition null_eqb (a b : option Z) : bool :=
  match a, b with
  | None, None => true
  | Some x, Some y => x =? y
  | _, _ => false
  end.

(** [ORDER BY total_auctions DESC, total_value DESC]: [a] may stand
    before [b]. *)
Definition sellers_desc (a b : seller_columns) : bool :=
  null_ltb (col_total_auctions b) (col_total_auctions a) ||
  (null_eqb (col_total_auctions a) (col_total_auctions b) &&
   negb (null_ltb (col_seller_total_value a) (col_seller_total_value b))).

Definition sellers_query (ties : nat -> nat) (db : Database) (now : Z)
    : option (list seller_columns) :=
  let rows := seller_rows db now in
  Some (order_by sellers_desc ties
          (map (aggregate_group rows) (distinct key_eqb (map group_key rows)))).

End Sql.

(** ** database/sql as the handlers use it *)

(** What [err.Error()] can denote: a failure reported by the driver or
    the server, a NULL scanned into a destination that cannot hold it, a
    number too large for the destination, or an empty result. *)
Inductive DbError :=
| DriverError (msg : string)
| ScanNull (column : nat)
| ScanRange (column : nat)
| ErrNoRows.

Definition Result (A : Type) : Type := DbError + A.

Definition bind {A B : Type} (m : Result A) (k : A -> Result B) : Result B :=
  match m with
  | inl e => inl e
  | inr x => k x
  end.

Notation "x <- m ;; k" := (bind m (fun x => k))
  (at level 61, m at next level, right associativity).

(** Scanning column [i] into an [*int]. *)
Definition scan_int (i : nat) (v : option Z) : Result Z :=
  match v with
  | None => inl (ScanNull i)
  | Some z => if GoInt.fits z then inr z else inl (ScanRange i)
  end.

(** Scanning column [i] into a [*string]. *)
Definition scan_string (i : nat) (v : option string) : Result string :=
  match v with
  | None => inl (ScanNull i)
  | Some s => inr s
  end.

(** The [rows.Scan] call of handleGetAuctions and handleSearch; the
    destinations follow the SELECT list.  [TimeLeft] is filled later. *)
Definition scan_auction (r : Sql.auction_columns) : Result AuctionItem :=
  let ah := Sql.col_ah r in
  id <- scan_int 0 (Some (Sql.ah_id ah)) ;;
  houseid <- scan_int 1 (Some (Sql.ah_houseid ah)) ;;
  itemguid <- scan_int 2 (Some (Sql.ah_itemguid ah)) ;;
  itemowner <- scan_int 3 (Some (Sql.ah_itemowner ah)) ;;
  buyoutprice <- scan_int 4 (Some (Sql.ah_buyoutprice ah)) ;;
  time <- scan_int 5 (Some (Sql.ah_time ah)) ;;
  buyguid <- scan_int 6 (Some (Sql.ah_buyguid ah)) ;;
  lastbid <- scan_int 7 (Some (Sql.ah_lastbid ah)) ;;
  startbid <- scan_int 8 (Some (Sql.ah_startbid ah)) ;;
  deposit <- scan_int 9 (Some (Sql.ah_deposit ah)) ;;
  itemEntry <- scan_int 10 (Sql.col_itemEntry r) ;;
  count <- scan_int 11 (Sql.col_count r) ;;
  owner_name <- scan_string 12 (Sql.col_owner_name r) ;;
  item_name <- scan_string 13 (Sql.col_item_name r) ;;
  quality <- scan_int 14 (Sql.col_quality r) ;;
  item_level <- scan_int 15 (Sql.col_item_level r) ;;
  inr (mkAuctionItem id houseid itemguid itemowner buyoutprice time buyguid
         lastbid startbid deposit itemEntry item_name owner_name count
         quality item_level "").

Definition scan_stats (r : Sql.stats_columns) : Result AuctionHouseStats :=
  total_items <- scan_int 0 (Sql.col_total_items r) ;;
  total_value <- scan_int 1 (Sql.col_total_value r) ;;
  unique_owners <- scan_int 2 (Sql.col_unique_owners r) ;;
  unique_items <- scan_int 3 (Sql.col_unique_items r) ;;
  inr (mkAuctionHouseStats total_items total_value 0 unique_owners unique_items).

Definition scan_seller (r : Sql.seller_columns) : Result Seller :=
  name <- scan_string 0 (Sql.col_seller_name r) ;;
  total_auctions <- scan_int 1 (Sql.col_total_auctions r) ;;
  total_value <- scan_int 2 (Sql.col_seller_total_value r) ;;
  unique_items <- scan_int 3 (Sql.col_seller_unique_items r) ;;
  inr (mkSeller name total_auctions total_value unique_items).

(** ** The world a request runs in *)

(** The statements the program can send, with their arguments. *)
Inductive Query :=
| QListing (limit offset : Z)
| QStats
| QBidCount
| QSearch (pattern1 pattern2 : string)
| QSellers.

Inductive Event :=
| Queried (q : Query)
| Logged (format : string) (err : DbError).

(** The program holds no transaction and the game server writes to the
    store all the while, so every statement of a request meets the store
    in a state of its own: [env_db k] is the store, [env_unix_timestamp k]
    its clock and [env_ties k] the order in which it holds the rows it is
    about to sort when it runs the [k]-th statement of the request.
    [env_fault q] is the error the driver reports for [q] when the store
    cannot serve it; [env_time_now i] is the program's clock when it
    handles row [i] of a result. *)
Record Env := mkEnv {
  env_db : nat -> Sql.Database;
  env_fault : Query -> option string;
  env_unix_timestamp : nat -> Z;
  env_ties : nat -> nat -> nat;
  env_time_now : nat -> Z
}.

(** [db.Query]: the rows, or an error. *)
Definition db_Query {R : Type} (e : Env) (k : nat) (q : Query)
    (eval : Sql.Database -> Z -> option (list R)) : Result (list R) :=
  match env_fault e q with
  | Some msg => inl (DriverError msg)
  | None =>
      match eval (env_db e k) (env_unix_timestamp e k) with
      | Some rows => inr rows
      | None => inl (DriverError "Incorrect arguments to EXECUTE")
      end
  end.

(** [db.QueryRow(...).Scan(...)]: the first row, scanned. *)
Definition db_QueryRow {R A : Type} (e : Env) (k : nat) (q : Query)
    (eval : Sql.Database -> Z -> option (list R)) (scan : R -> Result A)
    : Result A :=
  rows <- db_Query e k q eval ;;
  match rows with
  | [] => inl ErrNoRows
  | r :: _ => scan r
  end.

(** [url.Values] and its [Get]: the first value of the key, or the empty
    string. *)
Definition Values := list (string * list string).

Definition Get (v : Values) (key : string) : string :=
  match find (fun kv => String.eqb (fst kv) key) v with
  | Some (_, x :: _) => x
  | _ => ""
  end.

Record Request := mkRequest { URL_Query : Values }.

Inductive ErrorBody :=
| Text (s : string)
| ErrorOf (e : DbError).

(** What a handler writes: [http.Error], or a JSON body with the default
    status. *)
Inductive Response :=
| HttpError (body : ErrorBody) (code : Z)
| JsonAuctions (auctions : list AuctionItem) (page limit : Z)
| JsonStats (stats : AuctionHouseStats)
| JsonSearch (auctions : list AuctionItem) (search : string)
| JsonSellers (sellers : list Seller).

Definition StatusInternalServerError : Z := 500.
Definition StatusBadRequest : Z := 400.
Definition StatusOK : Z := 200.

Definition status (r : Response) : Z :=
  match r with
  | HttpError _ code => code
  | _ => StatusOK
  end.

(** ** The handlers *)

Definition with_TimeLeft (a : AuctionItem) (s : string) : AuctionItem :=
  mkAuctionItem (ID a) (HouseID a) (ItemGUID a) (ItemOwner a) (BuyoutPrice a)
    (Time a) (BuyGUID a) (LastBid a) (StartBid a) (Deposit a) (ItemEntry a)
    (ItemName a) (OwnerName a) (Count a) (Quality a) (ItemLevel a) s.

(** The body of the row loop after a successful scan. *)
Definition time_left (a : AuctionItem) (now : Z) : AuctionItem :=
  let timeLeft := GoInt.sub (Time a) now in
  if 0 <? timeLeft then with_TimeLeft a (formatTimeLeft timeLeft)
  else with_TimeLeft a "Expired".

(** The row loop of handleGetAuctions and handleSearch: a row that does
    not scan is logged and skipped. *)
Fixpoint scan_auctions (clock : nat -> Z) (i : nat)
    (rows : list Sql.auction_columns) : list AuctionItem * list Event :=
  match rows with
  | [] => ([], [])
  | r :: rest =>
      let out := scan_auctions clock (S i) rest in
      match scan_auction r with
      | inl err => (fst out, Logged "Error scanning auction: %v" err :: snd out)
      | inr a => (time_left a (clock i) :: fst out, snd out)
      end
  end.

Definition handleGetAuctions (e : Env) (r : Request) : Response * list Event :=
  let page := fst (Strconv.Atoi (Get (URL_Query r) "page")) in
  let page := if page <? 1 then 1 else page in
  let limit := 50 in
  let offset := GoInt.mul (GoInt.sub page 1) limit in
  let q := QListing limit offset in
  match db_Query e 0 q (Sql.listing_query limit offset (env_ties e 0)) with
  | inl err => (HttpError (ErrorOf err) StatusInternalServerError, [Queried q])
  | inr rows =>
      let out := scan_auctions (env_time_now e) 0 rows in
      (JsonAuctions (fst out) page limit, Queried q :: snd out)
  end.

Definition with_ActiveBids (s : AuctionHouseStats) (n : Z) : AuctionHouseStats :=
  mkAuctionHouseStats (TotalItems s) (TotalValue s) n (UniqueOwners s)
    (UniqueItems s).

Definition handleGetStats (e : Env) (r : Request) : Response * list Event :=
  match db_QueryRow e 0 QStats Sql.stats_query scan_stats with
  | inl err => (HttpError (ErrorOf err) StatusInternalServerError, [Queried QStats])
  | inr stats =>
      match db_QueryRow e 1 QBidCount Sql.bid_query (scan_int 0) with
      | inl err =>
          (JsonStats stats,
           [Queried QStats; Queried QBidCount;
            Logged "Error counting active bids: %v" err])
      | inr n =>
          (JsonStats (with_ActiveBids stats n),
           [Queried QStats; Queried QBidCount])
      end
  end.

Definition handleSearch (e : Env) (r : Request) : Response * list Event :=
  let searchTerm := Get (URL_Query r) "q" in
  if String.eqb searchTerm "" then
    (HttpError (Text "Search term required") StatusBadRequest, [])
  else
    let searchPattern := ("%" ++ searchTerm ++ "%")%string in
    let q := QSearch searchPattern searchPattern in
    match
      db_Query e 0 q
        (Sql.search_query searchPattern searchPattern (env_ties e 0))
    with
    | inl err => (HttpError (ErrorOf err) StatusInternalServerError, [Queried q])
    | inr rows =>
        let out := scan_auctions (env_time_now e) 0 rows in
        (JsonSearch (fst out) searchTerm, Queried q :: snd out)
    end.

Fixpoint scan_sellers (rows : list Sql.seller_columns)
    : list Seller * list Event :=
  match rows with
  | [] => ([], [])
  | r :: rest =>
      let out := scan_sellers rest in
      match scan_seller r with
      | inl err => (fst out, Logged "Error scanning seller: %v" err :: snd out)
      | inr s => (s :: fst out, snd out)
      end
  end.

Definition handleGetSellers (e : Env) (r : Request) : Response * list Event :=
  match db_Query e 0 QSellers (Sql.sellers_query (env_ties e 0)) with
  | inl err =>
      (HttpError (ErrorOf err) StatusInternalServerError, [Queried QSellers])
  | inr rows =>
      let out := scan_sellers rows in
      (JsonSellers (fst out), Queried QSellers :: snd out)
  end.

(** ** The script of the page

    The functions of the embedded script that compute on the JSON bodies.
    Strings are sequences of ASCII characters.  A number is an integer or
    NaN; the arithmetic on integers is that of [Z], which is the
    script's while magnitudes stay below [2 ^ 53]. *)

Module Js.

Inductive Number :=
| NaN
| Int (z : Z).

Definition add (a b : Number) : Number :=
  match a, b with
  | Int x, Int y => Int (x + y)
  | _, _ => NaN
  end.

Definition mul (a b : Number) : Number :=
  match a, b with
  | Int x, Int y => Int (x * y)
  | _, _ => NaN
  end.

(** How a call ends: with a value, or with a TypeError thrown. *)
Inductive Completion (A : Type) :=
| Return (a : A)
| TypeError.

Arguments Return {A} a.
Arguments TypeError {A}.

(** The white space that [parseInt] and [trim] strip: TAB, LF, VT, FF,
    CR and the space. *)
Definition is_space (c : ascii) : bool :=
  let n := nat_of_ascii c in
  (Nat.leb 9 n && Nat.leb n 13) || Nat.eqb n 32.

Fixpoint trim_start (s : string) : string :=
  match s with
  | EmptyString => EmptyString
  | String c s' => if is_space c then trim_start s' else s
  end.

Fixpoint trim_end (s : string) : string :=
  match s with
  | EmptyString => EmptyString
  | String c s' =>
      match trim_end s' with
      | EmptyString => if is_space c then EmptyString else String c EmptyString
      | t => String c t
      end
  end.

(** [s.trim()]. *)
Definition trim (s : string) : string := trim_end (trim_start s).

(** [s.split(' ')]: the pieces between the spaces; there is always at
    least one, and two spaces in a row enclose an empty piece. *)
Fixpoint split_space (s : string) : list string :=
  match s with
  | EmptyString => [EmptyString]
  | String c s' =>
      if Ascii.eqb c " " then EmptyString :: split_space s'
      else
        match split_space s' with
        | piece :: pieces => String c piece :: pieces
        | [] => [String c EmptyString]
        end
  end.

(** [s.includes(c)] for a one-character [c]. *)
Fixpoint includes (s : string) (c : ascii) : bool :=
  match s with
  | EmptyString => false
  | String x s' => Ascii.eqb x c || includes s' c
  end.

(** The value of a character as a digit of the radix, if it is one:
    [0-9], then [a-z] or [A-Z] for ten and above. *)
Definition digit_value (radix : Z) (c : ascii) : option Z :=
  let n := Z.of_nat (nat_of_ascii c) in
  let v :=
    if (48 <=? n) && (n <=? 57) then n - 48
    else if (97 <=? n) && (n <=? 122) then n - 87
    else if (65 <=? n) && (n <=? 90) then n - 55
    else 36 in
  if v <? radix then Some v else None.

(** The digits at the head of [s], read onto [acc]. *)
Fixpoint scan_digits (radix : Z) (acc : Z) (s : string) : Z :=
  match s with
  | EmptyString => acc
  | String c s' =>
      match digit_value radix c with
      | Some d => scan_digits radix (acc * radix + d) s'
      | None => acc
      end
  end.

Definition starts_with_digit (radix : Z) (s : string) : bool :=
  match s with
  | String c _ =>
      match digit_value radix c with
      | Some _ => true
      | None => false
      end
  | EmptyString => false
  end.

(** [parseInt(s)] with no radix given: leading white space is skipped, a
    sign is taken, [0x] or [0X] selects radix 16, then the digits at the
    head are read; NaN when there is none. *)
Definition parseInt (s : string) : Number :=
  let s := trim_start s in
  let signed :=
    match s with
    | String c s' =>
        if Ascii.eqb c "-" then (-1, s')
        else if Ascii.eqb c "+" then (1, s')
        else (1, s)
    | EmptyString => (1, s)
    end in
  let based :=
    match snd signed with
    | String c0 (String c1 s') =>
        if Ascii.eqb c0 "0" && (Ascii.eqb c1 "x" || Ascii.eqb c1 "X")
        then (16, s')
        else (10, snd signed)
    | _ => (10, snd signed)
    end in
  if starts_with_digit (fst based) (snd based)
  then Int (fst signed * scan_digits (fst based) 0 (snd based))
  else NaN.

(** The loop of parseTimeLeftToSeconds over the pieces, two at a time: a
    value, then its unit.  When the second piece of a pair is missing,
    [unit] is undefined and [unit.includes] throws. *)
Fixpoint parts_loop (parts : list string) (seconds : Number)
    : Completion Number :=
  match parts with
  | [] => Return seconds
  | piece :: rest =>
      let value := parseInt piece in
      match rest with
      | [] => TypeError
      | unit :: rest' =>
          parts_loop rest'
            (if includes unit "d" then add seconds (mul value (Int 86400))
             else if includes unit "h" then add seconds (mul value (Int 3600))
             else if includes unit "m" then add seconds (mul value (Int 60))
             else seconds)
      end
  end.

Definition parseTimeLeftToSeconds (timeLeft : string) : Completion Number :=
  if String.eqb timeLeft "Expired" then Return (Int (-1))
  else parts_loop (split_space timeLeft) (Int 0).

(** formatGold on the integer of a JSON body.  [Math.floor] of the
    quotient is [Z.div]; [%] takes the sign of the dividend, [Z.rem]. *)
Definition formatGold (copper : Z) : string :=
  if copper =? 0 then "0c"
  else
    let gold := copper / 10000 in
    let silver := Z.rem copper 10000 / 100 in
    let copperRemainder := Z.rem copper 100 in
    let result := "" in
    let result :=
      if 0 <? gold then (result ++ GoInt.itoa gold ++ "g ")%string
      else result in
    let result :=
      if 0 <? silver then (result ++ GoInt.itoa silver ++ "s ")%string
      else result in
    let result :=
      if (0 <? copperRemainder) || String.eqb result ""
      then (result ++ GoInt.itoa copperRemainder ++ "c")%string
      else result in
    trim result.

(** getQualityName: the entry of the table at the index, 'Unknown' when
    the index is outside the table. *)
Definition getQualityName (quality : Z) : string :=
  let qualities :=
    ["Poor"; "Common"; "Uncommon"; "Rare"; "Epic"; "Legendary"] in
  if (quality <? 0) || (Z.of_nat (List.length qualities) <=? quality)
  then "Unknown"
  else
    match nth_error qualities (Z.to_nat quality) with
    | Some name => name
    | None => "Unknown"
    end.

End Js.

(** ** Vocabulary of the statements *)

(** The listings a response carries. *)
Definition auctions_of (r : Response) : list AuctionItem :=
  match r with
  | JsonAuctions auctions _ _ => auctions
  | JsonSearch auctions _ => auctions
  | _ => []
  end.

(** The statements a handler sent, in order. *)
Definition queries_of (t : list Event) : list Query :=
  flat_map (fun ev => match ev with Queried q => [q] | Logged _ _ => [] end) t.

(** The request [?k=v]. *)
Definition request_with (k v : string) : Request := mkRequest [(k, [v])].


(** A small store for the examples: one listing that expires at 2000,
    with its item, its owner and the item's template. *)
Definition sample_ah : Sql.auctionhouse_row :=
  Sql.mk_ah 1 7 100 5 15000 2000 0 0 10000 50.

Definition sample_db : Sql.Database :=
  Sql.mk_db [sample_ah] [Sql.mk_ii 100 25 1] [Sql.mk_c 5 "Thrall"]
    [Sql.mk_it 25 "Worn Shortsword" 1 2].

Definition no_fault : Query -> option string := fun _ => None.

(** A store that nothing writes to while a request is served, with the
    clocks standing at [now]; rows of equal key come out in the order of
    the tables. *)
Definition still_env (db : Sql.Database) (fault : Query -> option string)
    (now : Z) : Env :=
  mkEnv (fun _ => db) fault (fun _ => now) (fun _ i => i) (fun _ => now).

Definition sample_env : Env := still_env sample_db no_fault 1000.

(** The store fails the bid count, and nothing else. *)
Definition bid_fault : Query -> option string :=
  fun q => match q with QBidCount => Some "connection lost" | _ => None end.

(** The same world over other states of the store. *)
Definition with_db (e : Env) (db : nat -> Sql.Database) : Env :=
  mkEnv db (env_fault e) (env_unix_timestamp e) (env_ties e) (env_time_now e).

(** Two stores that differ at most in auction rows whose expiry is at or
    before [now]. *)
Definition same_live (now : Z) (db db' : Sql.Database) : Prop :=
  filter (Sql.live now) (Sql.auctionhouse db) =
    filter (Sql.live now) (Sql.auctionhouse db') /\
  Sql.item_instance db = Sql.item_instance db' /\
  Sql.characters db = Sql.characters db' /\
  Sql.item_template db = Sql.item_template db'.

(** The listing [a] shows the auction row [ah]. *)
Definition shows (a : AuctionItem) (ah : Sql.auctionhouse_row) : Prop :=
  ID a = Sql.ah_id ah /\ HouseID a = Sql.ah_houseid ah /\
  ItemGUID a = Sql.ah_itemguid ah /\ ItemOwner a = Sql.ah_itemowner ah /\
  BuyoutPrice a = Sql.ah_buyoutprice ah /\ Time a = Sql.ah_time ah /\
  BuyGUID a = Sql.ah_buyguid ah /\ LastBid a = Sql.ah_lastbid ah /\
  StartBid a = Sql.ah_startbid ah /\ Deposit a = Sql.ah_deposit ah.

(** The numbers of an auction row fit Go's [int]. *)
Definition fits_ah (ah : Sql.auctionhouse_row) : bool :=
  GoInt.fits (Sql.ah_id ah) && GoInt.fits (Sql.ah_houseid ah) &&
  GoInt.fits (Sql.ah_itemguid ah) && GoInt.fits (Sql.ah_itemowner ah) &&
  GoInt.fits (Sql.ah_buyoutprice ah) && GoInt.fits (Sql.ah_time ah) &&
  GoInt.fits (Sql.ah_buyguid ah) && GoInt.fits (Sql.ah_lastbid ah) &&
  GoInt.fits (Sql.ah_startbid ah) && GoInt.fits (Sql.ah_deposit ah).

(** A joined row that [rows.Scan] accepts: the item instance was found and
    every number fits Go's [int]. *)
Definition scannable (j : Sql.joined) : bool :=
  fits_ah (Sql.j_ah j) &&
  match Sql.j_ii j with
  | Some ii => GoInt.fits (Sql.ii_itemEntry ii) && GoInt.fits (Sql.ii_count ii)
  | None => false
  end &&
  match Sql.j_it j with
  | Some it => GoInt.fits (Sql.it_Quality it) && GoInt.fits (Sql.it_ItemLevel it)
  | None => true
  end.

(** The listing [a] is the joined row [j] with its references resolved:
    the owner's and the item's name where the join found them, the
    placeholders where it did not. *)
Definition resolves (j : Sql.joined) (a : AuctionItem) : Prop :=
  shows a (Sql.j_ah j) /\
  Some (ItemEntry a) = option_map Sql.ii_itemEntry (Sql.j_ii j) /\
  Some (Count a) = option_map Sql.ii_count (Sql.j_ii j) /\
  OwnerName a =
    match Sql.j_c j with Some c => Sql.c_name c | None => "Unknown" end /\
  ItemName a =
    match Sql.j_it j with Some it => Sql.it_name it | None => "Unknown Item" end /\
  Quality a =
    match Sql.j_it j with Some it => Sql.it_Quality it | None => 0 end /\
  ItemLevel a =
    match Sql.j_it j with Some it => Sql.it_ItemLevel it | None => 0 end.

(** [t] is a prefix of [s], letter case aside. *)
Fixpoint prefix_ci (t s : list ascii) : bool :=
  match t, s with
  | [], _ => true
  | c :: t', x :: s' => Sql.ci_eqb c x && prefix_ci t' s'
  | _ :: _, [] => false
  end.

(** [t] occurs in [s], letter case aside. *)
Fixpoint infix_ci (t s : list ascii) : bool :=
  prefix_ci t s ||
  match s with
  | [] => false
  | _ :: s' => infix_ci t s'
  end.

(** The name contains the term as a case-insensitive substring; a name
    that is absent contains nothing. *)
Definition contains_ci (term : string) (name : option string) : bool :=
  match name with
  | Some s => infix_ci (list_ascii_of_string term) (list_ascii_of_string s)
  | None => false
  end.

(** A term without the characters LIKE gives a meaning to. *)
Definition plain_char (c : ascii) : bool :=
  negb (Ascii.eqb c "%" || Ascii.eqb c "_" || Ascii.eqb c "\").

Definition plain (term : string) : bool :=
  forallb plain_char (list_ascii_of_string term).

(** The item's or the owner's name, as the joins found them, contains the
    term. *)
Definition name_matches (term : string) (j : Sql.joined) : bool :=
  contains_ci term (option_map Sql.it_name (Sql.j_it j)) ||
  contains_ci term (option_map Sql.c_name (Sql.j_c j)).

(** The live listings with their joins, in no particular order. *)
Definition live_rows (db : Sql.Database) (now : Z) : list Sql.joined :=
  filter (fun j => Sql.live now (Sql.j_ah j)) (Sql.from_listing db).

(** The live joined rows one of whose names contains the term, in no
    particular order. *)
Definition matching_listings (term : string) (db : Sql.Database) (now : Z)
    : list Sql.joined :=
  filter (fun j => Sql.live now (Sql.j_ah j) && name_matches term j)
    (Sql.from_listing db).

(** [a] expires no later than [b]. *)
Definition by_expiry (a b : Sql.joined) : Prop :=
  Sql.ah_time (Sql.j_ah a) <= Sql.ah_time (Sql.j_ah b).

(** The reading of the search claim: the names that count are the
    resolved ones, as the response shows them, placeholders included. *)
Definition resolved_name_matches (term : string) (j : Sql.joined) : bool :=
  contains_ci term (Sql.col_item_name (Sql.select_listing j)) ||
  contains_ci term (Sql.col_owner_name (Sql.select_listing j)).

Definition claimed_listings (term : string) (db : Sql.Database) (now : Z)
    : list Sql.joined :=
  filter (fun j => Sql.live now (Sql.j_ah j) && resolved_name_matches term j)
    (Sql.from_listing db).

(** A store whose only listing refers to an item that has no row in
    [item_instance]. *)
Definition no_instance_db : Sql.Database :=
  Sql.mk_db [sample_ah] [] [Sql.mk_c 5 "Thrall"]
    [Sql.mk_it 25 "Worn Shortsword" 1 2].

Definition no_instance_env : Env :=
  still_env no_instance_db no_fault 1000.

(** A store whose only listing belongs to an owner that has no row in
    [characters]. *)
Definition no_owner_db : Sql.Database :=
  Sql.mk_db [sample_ah] [Sql.mk_ii 100 25 1] []
    [Sql.mk_it 25 "Worn Shortsword" 1 2].

Definition no_owner_env : Env :=
  still_env no_owner_db no_fault 1000.

(** A store whose only listing is of an item that has no template. *)
Definition no_template_db : Sql.Database :=
  Sql.mk_db [sample_ah] [Sql.mk_ii 100 25 1] [Sql.mk_c 5 "Thrall"] [].

Definition no_template_env : Env :=
  still_env no_template_db no_fault 1000.

(** The order of the seller list: more listings first, and among equal
    counts the larger total value first. *)
Definition seller_before (a b : Seller) : Prop :=
  TotalAuctions b < TotalAuctions a \/
  (TotalAuctions a = TotalAuctions b /\ SellerTotalValue b <= SellerTotalValue a).

(** The live listings of the owner [owner] whose character is named
    [name], as the joins of the roll-up produce them. *)
Definition listings_of (db : Sql.Database) (now : Z) (owner : Z)
    (name : string) : list Sql.seller_joined :=
  filter
    (fun j =>
       (owner =? Sql.ah_itemowner (Sql.sj_ah j)) &&
       match Sql.sj_c j with
       | Some c => String.eqb name (Sql.c_name c)
       | None => false
       end)
    (filter (fun j => Sql.live now (Sql.sj_ah j)) (Sql.from_sellers db)).

(** The store without the listings whose owner has no character row. *)
Definition owned (db : Sql.Database) : Sql.Database :=
  Sql.mk_db
    (filter
       (fun ah =>
          existsb (fun c => Sql.ah_itemowner ah =? Sql.c_guid c)
            (Sql.characters db))
       (Sql.auctionhouse db))
    (Sql.item_instance db) (Sql.characters db) (Sql.item_template db).

(** Two sellers, and a listing of an owner without a character row. *)
Definition market_db : Sql.Database :=
  Sql.mk_db
    [Sql.mk_ah 1 7 100 5 15000 2000 0 0 10000 50;
     Sql.mk_ah 2 7 101 6 400 3000 0 0 300 5;
     Sql.mk_ah 3 7 102 6 900 2500 0 0 800 5;
     Sql.mk_ah 4 7 103 9 70 2600 0 0 60 5]
    [Sql.mk_ii 100 25 1; Sql.mk_ii 101 25 1; Sql.mk_ii 102 30 2;
     Sql.mk_ii 103 30 1]
    [Sql.mk_c 5 "Thrall"; Sql.mk_c 6 "Jaina"]
    [Sql.mk_it 25 "Worn Shortsword" 1 2].

Definition market_env : Env :=
  still_env market_db no_fault 1000.

(** A store that the game server writes to between the two statements of
    a request: one listing at the first statement, and a second one, both
    with a bid, from the next on. *)
Definition busy_env : Env :=
  mkEnv
    (fun k =>
       match k with
       | O => sample_db
       | S _ =>
           Sql.mk_db
             [Sql.mk_ah 1 7 100 5 15000 2000 6 12000 10000 50;
              Sql.mk_ah 2 7 101 6 400 3000 5 350 300 5]
             [Sql.mk_ii 100 25 1; Sql.mk_ii 101 25 1]
             [Sql.mk_c 5 "Thrall"; Sql.mk_c 6 "Jaina"]
             [Sql.mk_it 25 "Worn Shortsword" 1 2]
       end)
    no_fault (fun _ => 1000) (fun _ i => i) (fun _ => 1000).

(** [a] expires no later than [b]. *)
Definition expires_before (a b : AuctionItem) : Prop := Time a <= Time b.

(** The errors a handler logged, in order. *)
Definition logged_of (t : list Event) : list DbError :=
  flat_map (fun ev => match ev with Logged _ err => [err] | Queried _ => [] end) t.

(** Rows [50(p-1)+1 .. 50p] of a list of rows. *)
Definition page_rows {A : Type} (rows : list A) (p : Z) : list A :=
  firstn 50 (skipn (Z.to_nat (50 * (p - 1))) rows).

(** The rows of the auction table that are live at [now]. *)
Definition live_listings (db : Sql.Database) (now : Z)
    : list Sql.auctionhouse_row :=
  filter (Sql.live now) (Sql.auctionhouse db).

(** [guid] is a key of [item_instance]. *)
Definition unique_item_guids (db : Sql.Database) : Prop :=
  NoDup (map Sql.ii_guid (Sql.item_instance db)).

(** The sum of a list of integers. *)
Definition total (l : list Z) : Z := fold_right Z.add 0 l.

(** The [total_auctions] column of a roll-up row, 0 for NULL. *)
Definition auctions_column (row : Sql.seller_columns) : Z :=
  match Sql.col_total_auctions row with
  | Some z => z
  | None => 0
  end.

(** The number that decimal digits denote, read left to right onto
    [acc]. *)
Fixpoint uint_value (d : Decimal.uint) (acc : Z) : Z :=
  match d with
  | Decimal.Nil => acc
  | Decimal.D0 l => uint_value l (acc * 10 + 0)
  | Decimal.D1 l => uint_value l (acc * 10 + 1)
  | Decimal.D2 l => uint_value l (acc * 10 + 2)
  | Decimal.D3 l => uint_value l (acc * 10 + 3)
  | Decimal.D4 l => uint_value l (acc * 10 + 4)
  | Decimal.D5 l => uint_value l (acc * 10 + 5)
  | Decimal.D6 l => uint_value l (acc * 10 + 6)
  | Decimal.D7 l => uint_value l (acc * 10 + 7)
  | Decimal.D8 l => uint_value l (acc * 10 + 8)
  | Decimal.D9 l => uint_value l (acc * 10 + 9)
  end.

(** A decimal digit. *)
Definition is_digit (c : ascii) : bool :=
  match Strconv.digit c with
  | Some _ => true
  | None => false
  end.

(** A string with no white space at either end. *)
Definition tight (w : string) : Prop :=
  (exists c r, w = String c r /\ Js.is_space c = false) /\ Js.trim_end w = w.

(** The parts of an amount that formatGold shows: the units that are
    not zero, largest first. *)
Definition gold_parts (g s c : Z) : list string :=
  (if 0 <? g then [(GoInt.itoa g ++ "g")%string] else []) ++
  (if 0 <? s then [(GoInt.itoa s ++ "s")%string] else []) ++
  (if 0 <? c then [(GoInt.itoa c ++ "c")%string] else []).

(** At least one of the two names of a joined row was found. *)
Definition named (j : Sql.joined) : bool :=
  match Sql.j_it j, Sql.j_c j with
  | None, None => false
  | _, _ => true
  end.

(** The live joined rows with a name, in no particular order. *)
Definition named_listings (db : Sql.Database) (now : Z) : list Sql.joined :=
  filter (fun j => Sql.live now (Sql.j_ah j) && named j)
    (Sql.from_listing db).

(** A term made of percent signs only. *)
Definition all_percent (term : string) : bool :=
  forallb (fun c => Ascii.eqb c "%") (list_ascii_of_string term).


(** * Properties *)

(** ** Go integers *)

Lemma wrap_fits z : GoInt.fits z = true -> GoInt.wrap z = z.
Proof.
  unfold GoInt.fits, GoInt.wrap, GoInt.min_int, GoInt.max_int. intros H.
  apply andb_true_iff in H. destruct H as [Hl Hu].
  apply Z.leb_le in Hl. apply Z.leb_le in Hu.
  rewrite Z.mod_small; lia.
Qed.

Lemma fits_wrap z : GoInt.fits (GoInt.wrap z) = true.
Proof.
  unfold GoInt.fits, GoInt.wrap, GoInt.min_int, GoInt.max_int.
  pose proof (Z.mod_pos_bound (z + 2 ^ 63) (2 ^ 64) ltac:(lia)) as H.
  apply andb_true_iff. split; apply Z.leb_le; lia.
Qed.

Example atoi_samples :
  Strconv.Atoi "17" = (17, None) /\
  Strconv.Atoi "-3" = (-3, None) /\
  Strconv.Atoi "" = (0, Some Strconv.ErrSyntax) /\
  Strconv.Atoi "abc" = (0, Some Strconv.ErrSyntax) /\
  Strconv.Atoi "+" = (0, Some Strconv.ErrSyntax) /\
  Strconv.Atoi "1_0" = (0, Some Strconv.ErrSyntax) /\
  Strconv.Atoi "99999999999999999999" = (GoInt.max_int, Some Strconv.ErrRange) /\
  Strconv.Atoi "-99999999999999999999" = (GoInt.min_int, Some Strconv.ErrRange) /\
  Strconv.Atoi "9223372036854775807" = (GoInt.max_int, None) /\
  Strconv.Atoi "-9223372036854775808" = (GoInt.min_int, None) /\
  Strconv.Atoi "9223372036854775808" = (GoInt.max_int, Some Strconv.ErrRange) /\
  Strconv.Atoi "1234567890123456789x" = (0, Some Strconv.ErrSyntax) /\
  Strconv.Atoi "99999999999999999999x" = (GoInt.max_int, Some Strconv.ErrRange).
Proof. repeat split; vm_compute; reflexivity. Qed.

(** ** formatTimeLeft *)

Section FormatTimeLeft.

Variables d h m sec : Z.
Hypothesis Hd : 0 <= d.
Hypothesis Hh : 0 <= h < 24.
Hypothesis Hm : 0 <= m < 60.
Hypothesis Hsec : 0 <= sec < 60.

Let total := d * 86400 + h * 3600 + m * 60 + sec.

Lemma split_days : Z.quot total 86400 = d.
Proof. subst total. Z.quot_rem_to_equations. lia. Qed.

Lemma split_hours : Z.quot (Z.rem total 86400) 3600 = h.
Proof. subst total. Z.quot_rem_to_equations. lia. Qed.

Lemma split_minutes : Z.quot (Z.rem total 3600) 60 = m.
Proof. subst total. Z.quot_rem_to_equations. lia. Qed.

End FormatTimeLeft.

(** C2.  A remaining time of [d] days, [h] hours, [m] minutes and [sec]
    seconds is shown as days and hours when [d > 0], as hours and minutes
    when [d = 0] and [h > 0], and as minutes otherwise; a remaining time
    of zero or less is shown as "Expired".  In particular 90000 gives
    "1d 1h", 5000 gives "1h 23m" and 120 gives "2m". *)
Theorem formatTimeLeft_spec (d h m sec s : Z) :
  0 <= d -> 0 <= h < 24 -> 0 <= m < 60 -> 0 <= sec < 60 ->
  0 < d * 86400 + h * 3600 + m * 60 + sec ->
  s <= 0 ->
  formatTimeLeft s = "Expired" /\
  formatTimeLeft (d * 86400 + h * 3600 + m * 60 + sec) =
    (if 0 <? d then (GoInt.itoa d ++ "d " ++ GoInt.itoa h ++ "h")%string
     else if 0 <? h then (GoInt.itoa h ++ "h " ++ GoInt.itoa m ++ "m")%string
     else (GoInt.itoa m ++ "m")%string) /\
  formatTimeLeft 90000 = "1d 1h" /\
  formatTimeLeft 5000 = "1h 23m" /\
  formatTimeLeft 120 = "2m".
Proof.
  intros Hd Hh Hm Hsec Hpos Hs.
  split; [| split; [| repeat split; reflexivity]].
  - unfold formatTimeLeft. apply Z.leb_le in Hs. now rewrite Hs.
  - unfold formatTimeLeft.
    rewrite (split_days d h m sec), (split_hours d h m sec),
      (split_minutes d h m sec) by assumption.
    apply Z.leb_gt in Hpos. now rewrite Hpos.
Qed.

Lemma formatTimeLeft_spec_witness :
  formatTimeLeft (-7) = "Expired" /\
  formatTimeLeft (2 * 86400 + 3 * 3600 + 4 * 60 + 5) = "2d 3h".
Proof.
  destruct (formatTimeLeft_spec 2 3 4 5 (-7)) as [H1 [H2 _]]; try lia.
  split; [exact H1 | exact H2].
Defined.

(** ** LIMIT and OFFSET *)

Lemma limit_rows_firstn {A : Type} n (l : list A) :
  Sql.limit_rows n l = firstn (Z.to_nat n) l.
Proof.
  revert n. induction l as [| x l IH]; intros n; simpl.
  - now rewrite firstn_nil.
  - destruct (Z.leb_spec n 0) as [Hn | Hn].
    + replace (Z.to_nat n) with 0%nat by lia. reflexivity.
    + replace (Z.to_nat n) with (S (Z.to_nat (n - 1))) by lia.
      now rewrite firstn_cons, IH.
Qed.

Lemma offset_rows_skipn {A : Type} m (l : list A) :
  Sql.offset_rows m l = skipn (Z.to_nat m) l.
Proof.
  revert m. induction l as [| x l IH]; intros m; simpl.
  - now rewrite skipn_nil.
  - destruct (Z.leb_spec m 0) as [Hm | Hm].
    + replace (Z.to_nat m) with 0%nat by lia. reflexivity.
    + replace (Z.to_nat m) with (S (Z.to_nat (m - 1))) by lia.
      now rewrite skipn_cons, IH.
Qed.

(** ** The row loops *)

Lemma scan_auctions_length clock i rows :
  (List.length (fst (scan_auctions clock i rows)) <= List.length rows)%nat.
Proof.
  revert i. induction rows as [| r rest IH]; intros i; simpl.
  - lia.
  - specialize (IH (S i)). destruct (scan_auction r); simpl; lia.
Qed.

Lemma scan_auctions_no_query clock i rows :
  queries_of (snd (scan_auctions clock i rows)) = [].
Proof.
  revert i. induction rows as [| r rest IH]; intros i; simpl.
  - reflexivity.
  - destruct (scan_auction r); simpl; apply IH.
Qed.

Lemma listing_query_length limit offset ties db now rows :
  Sql.listing_query limit offset ties db now = Some rows ->
  0 <= limit ->
  (List.length rows <= Z.to_nat limit)%nat.
Proof.
  unfold Sql.listing_query. intros H _.
  destruct ((limit <? 0) || (offset <? 0)); [discriminate |].
  injection H as <-. rewrite length_map, limit_rows_firstn.
  apply firstn_le_length.
Qed.

(** ** The page parameter *)



(** What handleGetAuctions does once the page is fixed. *)
Lemma handleGetAuctions_page e r :
  handleGetAuctions e r =
  let page := fst (Strconv.Atoi (Get (URL_Query r) "page")) in
  let page := if page <? 1 then 1 else page in
  let q := QListing 50 (GoInt.mul (GoInt.sub page 1) 50) in
  match
    db_Query e 0 q
      (Sql.listing_query 50 (GoInt.mul (GoInt.sub page 1) 50) (env_ties e 0))
  with
  | inl err => (HttpError (ErrorOf err) StatusInternalServerError, [Queried q])
  | inr rows =>
      (JsonAuctions (fst (scan_auctions (env_time_now e) 0 rows)) page 50,
       Queried q :: snd (scan_auctions (env_time_now e) 0 rows))
  end.
Proof. reflexivity. Qed.

(** C3.  When the page parameter parses to an integer of at least 1, the
    handler sends the listing statement with LIMIT 50 and the response
    carries at most 50 listings. *)
Theorem handleGetAuctions_page_size (e : Env) (r : Request) (n : Z) :
  Strconv.Atoi (Get (URL_Query r) "page") = (n, None) ->
  1 <= n ->
  queries_of (snd (handleGetAuctions e r)) =
    [QListing 50 (GoInt.mul (GoInt.sub n 1) 50)] /\
  (List.length (auctions_of (fst (handleGetAuctions e r))) <= 50)%nat.
Proof.
  intros Hparse Hn. rewrite handleGetAuctions_page, Hparse. cbn zeta. cbn [fst].
  assert (Hlt : (n <? 1) = false) by (apply Z.ltb_ge; lia).
  rewrite Hlt.
  unfold db_Query.
  destruct (env_fault e _) as [msg |]; [simpl; split; [reflexivity | lia] |].
  destruct (Sql.listing_query 50 _ _ _ _) as [rows |] eqn:Hq;
    [| simpl; split; [reflexivity | lia]].
  cbn [fst snd auctions_of queries_of flat_map app].
  split.
  - fold (queries_of (snd (scan_auctions (env_time_now e) 0 rows))).
    now rewrite scan_auctions_no_query.
  - apply listing_query_length in Hq; [| lia].
    pose proof (scan_auctions_length (env_time_now e) 0 rows). 
    change (Z.to_nat 50) with 50%nat in Hq. lia.
Qed.

Lemma handleGetAuctions_page_size_witness :
  queries_of (snd (handleGetAuctions sample_env (request_with "page" "3"))) =
    [QListing 50 100] /\
  (List.length
     (auctions_of (fst (handleGetAuctions sample_env (request_with "page" "3"))))
   <= 50)%nat.
Proof.
  apply (handleGetAuctions_page_size sample_env (request_with "page" "3") 3).
  - reflexivity.
  - lia.
Defined.








(** ** The search term *)

(** C5.  An empty search term is answered with status 400 and no
    statement is sent to the store; with any other term the handler sends
    the search statement. *)
Theorem handleSearch_term_required (e : Env) (r : Request) :
  (Get (URL_Query r) "q" = "" ->
   fst (handleSearch e r) =
     HttpError (Text "Search term required") StatusBadRequest /\
   status (fst (handleSearch e r)) = 400 /\
   queries_of (snd (handleSearch e r)) = []) /\
  (Get (URL_Query r) "q" <> "" ->
   queries_of (snd (handleSearch e r)) =
     [QSearch ("%" ++ Get (URL_Query r) "q" ++ "%")
              ("%" ++ Get (URL_Query r) "q" ++ "%")]).
Proof.
  unfold handleSearch. split.
  - intros ->. simpl. repeat split.
  - intros Hne. apply String.eqb_neq in Hne. rewrite Hne.
    destruct (db_Query e 0 _ _) as [err | rows]; cbn [fst snd].
    + reflexivity.
    + cbn [queries_of flat_map app].
      fold (queries_of (snd (scan_auctions (env_time_now e) 0 rows))).
      now rewrite scan_auctions_no_query.
Qed.

Lemma handleSearch_term_required_witness :
  status (fst (handleSearch sample_env (request_with "q" ""))) = 400 /\
  queries_of (snd (handleSearch sample_env (request_with "q" ""))) = [] /\
  queries_of (snd (handleSearch sample_env (request_with "q" "sword"))) =
    [QSearch "%sword%" "%sword%"].
Proof.
  destruct (handleSearch_term_required sample_env (request_with "q" ""))
    as [Hempty _].
  destruct (handleSearch_term_required sample_env (request_with "q" "sword"))
    as [_ Hterm].
  destruct (Hempty eq_refl) as [_ [Hs Hq]].
  split; [exact Hs | split; [exact Hq |]].
  apply Hterm. discriminate.
Defined.

(** ** Left joins and filters *)

Section LeftJoin.

Context {A B C : Type}.
Variable on : A -> B -> bool.
Variable mk : A -> option B -> C.

(** Every row of a left join extends a row of its left operand. *)
Lemma left_join_In (l : list A) (r : list B) (x : C) :
  In x (Sql.left_join on mk l r) ->
  exists a ob, In a l /\ x = mk a ob /\
    match ob with
    | Some b => In b r /\ on a b = true
    | None => forall b, In b r -> on a b = false
    end.
Proof.
  unfold Sql.left_join. intros H. apply in_flat_map in H.
  destruct H as [a [Ha Hx]]. exists a.
  destruct (filter (on a) r) as [| b0 ms] eqn:Hf.
  - destruct Hx as [<- | []]. exists None. repeat split; trivial.
    intros b Hb. destruct (on a b) eqn:Hab; trivial.
    assert (Hin : In b (filter (on a) r)) by (apply filter_In; auto).
    rewrite Hf in Hin. destruct Hin.
  - apply in_map_iff in Hx. destruct Hx as [b [<- Hb]].
    exists (Some b). rewrite <- Hf in Hb. apply filter_In in Hb.
    repeat split; tauto.
Qed.

(** A condition on the left operand can be applied before the join. *)
Lemma filter_left_join (p : C -> bool) (q : A -> bool) l r :
  (forall a ob, p (mk a ob) = q a) ->
  filter p (Sql.left_join on mk l r) = Sql.left_join on mk (filter q l) r.
Proof.
  intros Hpq. unfold Sql.left_join.
  induction l as [| a l IH]; [reflexivity |].
  cbn [flat_map]. rewrite filter_app, IH. cbn [filter].
  assert (Hrow : forall rows : list C,
             (forall x, In x rows -> exists ob, x = mk a ob) ->
             filter p rows = if q a then rows else []).
  { induction rows as [| x rows IHr]; intros Hall; simpl.
    - now destruct (q a).
    - destruct (Hall x (or_introl eq_refl)) as [ob ->].
      rewrite Hpq, IHr by (intros y Hy; apply Hall; now right).
      now destruct (q a). }
  rewrite Hrow.
  - destruct (q a); reflexivity.
  - intros x Hx. destruct (filter (on a) r) as [| b0 ms].
    + destruct Hx as [<- | []]. now exists None.
    + apply in_map_iff in Hx. destruct Hx as [b [<- _]]. now exists (Some b).
Qed.

End LeftJoin.

Lemma filter_none {A : Type} (p : A -> bool) (l : list A) :
  (forall x, In x l -> p x = false) -> filter p l = [].
Proof.
  induction l as [| x l IH]; intros H; simpl; [reflexivity |].
  rewrite (H x (or_introl eq_refl)). apply IH. intros y Hy. apply H. now right.
Qed.

(** The statistics only read the live rows of the auction table. *)
Lemma stats_rows_live db now :
  Sql.stats_rows db now =
  Sql.left_join (fun ah ii => Sql.ah_itemguid ah =? Sql.ii_guid ii) pair
    (filter (Sql.live now) (Sql.auctionhouse db)) (Sql.item_instance db).
Proof.
  unfold Sql.stats_rows, Sql.ah_ii. now apply filter_left_join.
Qed.

(** ** Statistics *)

(** What a successful scan of the aggregate row puts into the struct. *)
Lemma primary_stats e stats :
  db_QueryRow e 0 QStats Sql.stats_query scan_stats = inr stats ->
  let rows := Sql.stats_rows (env_db e 0) (env_unix_timestamp e 0) in
  env_fault e QStats = None /\
  ActiveBids stats = 0 /\
  TotalItems stats = Z.of_nat (List.length rows) /\
  Sql.sum (map (fun x => Sql.ah_buyoutprice (fst x)) rows) =
    Some (TotalValue stats).
Proof.
  unfold db_QueryRow, db_Query, bind.
  destruct (env_fault e QStats); [discriminate |]. cbn.
  unfold scan_stats, bind, scan_int. cbn.
  destruct (Sql.sum _) as [v |]; [| destruct (GoInt.fits _); discriminate].
  repeat match goal with
         | |- context [if ?c then _ else _] => destruct c; [| discriminate]
         end.
  intros [= <-]. repeat split.
Qed.

(** C6.  When the aggregate statement and its scan succeed and the bid
    count fails, the handler answers with status 200 and the aggregate
    figures, the number of active bids being 0; the failure is only
    logged. *)
Theorem handleGetStats_partial_failure (e : Env) (r : Request)
    (stats : AuctionHouseStats) (err : DbError) :
  db_QueryRow e 0 QStats Sql.stats_query scan_stats = inr stats ->
  db_QueryRow e 1 QBidCount Sql.bid_query (scan_int 0) = inl err ->
  fst (handleGetStats e r) = JsonStats stats /\
  status (fst (handleGetStats e r)) = 200 /\
  ActiveBids stats = 0 /\
  TotalItems stats =
    Z.of_nat (List.length
                (Sql.stats_rows (env_db e 0) (env_unix_timestamp e 0))) /\
  Sql.sum (map (fun x => Sql.ah_buyoutprice (fst x))
             (Sql.stats_rows (env_db e 0) (env_unix_timestamp e 0))) =
    Some (TotalValue stats) /\
  snd (handleGetStats e r) =
    [Queried QStats; Queried QBidCount;
     Logged "Error counting active bids: %v" err].
Proof.
  intros Hprimary Hbids.
  destruct (primary_stats e stats Hprimary) as [_ [Hzero [Hcount Hsum]]].
  unfold handleGetStats. rewrite Hprimary, Hbids.
  cbn [fst snd status]. repeat split; assumption.
Qed.

Lemma handleGetStats_partial_failure_witness :
  fst (handleGetStats (still_env sample_db bid_fault 1000)
         (mkRequest [])) =
    JsonStats (mkAuctionHouseStats 1 15000 0 1 1).
Proof.
  apply (handleGetStats_partial_failure
           (still_env sample_db bid_fault 1000)
           (mkRequest []) (mkAuctionHouseStats 1 15000 0 1 1)
           (DriverError "connection lost")); reflexivity.
Defined.

(** C10.  When no listing is live, the aggregate row has NULL in its
    second column, the scan into [TotalValue] fails, and the handler
    answers with status 500 instead of a statistics object. *)
Theorem handleGetStats_no_live_listing (e : Env) (r : Request) :
  (forall ah, In ah (Sql.auctionhouse (env_db e 0)) ->
              Sql.live (env_unix_timestamp e 0) ah = false) ->
  Sql.stats_query (env_db e 0) (env_unix_timestamp e 0) =
    Some [Sql.mk_stats_cols (Some 0) None (Some 0) (Some 0)] /\
  scan_stats (Sql.mk_stats_cols (Some 0) None (Some 0) (Some 0)) =
    inl (ScanNull 1) /\
  status (fst (handleGetStats e r)) = 500 /\
  (env_fault e QStats = None ->
   handleGetStats e r =
     (HttpError (ErrorOf (ScanNull 1)) StatusInternalServerError,
      [Queried QStats])).
Proof.
  intros Hdead.
  assert (Hrows : Sql.stats_rows (env_db e 0) (env_unix_timestamp e 0) = []).
  { rewrite stats_rows_live, (filter_none _ _ Hdead). reflexivity. }
  assert (Hq : Sql.stats_query (env_db e 0) (env_unix_timestamp e 0) =
               Some [Sql.mk_stats_cols (Some 0) None (Some 0) (Some 0)]).
  { unfold Sql.stats_query. rewrite Hrows. reflexivity. }
  split; [exact Hq | split; [reflexivity |]].
  unfold handleGetStats, db_QueryRow, db_Query, bind. rewrite Hq.
  destruct (env_fault e QStats) as [msg |]; cbn.
  - split; [reflexivity | discriminate].
  - split; reflexivity.
Qed.

Lemma handleGetStats_no_live_listing_witness :
  status (fst (handleGetStats
                 (still_env sample_db no_fault 2000)
                 (mkRequest []))) = 500.
Proof.
  apply (handleGetStats_no_live_listing
           (still_env sample_db no_fault 2000)
           (mkRequest [])).
  intros ah [<- | []]. reflexivity.
Defined.

(** ** Liveness *)

Lemma In_firstn {A : Type} n (l : list A) x : In x (firstn n l) -> In x l.
Proof.
  intros H. rewrite <- (firstn_skipn n l). apply in_or_app. now left.
Qed.

Lemma In_skipn {A : Type} n (l : list A) x : In x (skipn n l) -> In x l.
Proof.
  intros H. rewrite <- (firstn_skipn n l). apply in_or_app. now right.
Qed.

Lemma In_insert_by {A : Type} (le : A -> A -> bool) x y l :
  In y (Sql.insert_by le x l) <-> y = x \/ In y l.
Proof.
  induction l as [| h t IH]; simpl.
  - intuition.
  - destruct (le x h); simpl; rewrite ?IH; intuition.
Qed.

Lemma In_sort_by {A : Type} (le : A -> A -> bool) y l :
  In y (Sql.sort_by le l) <-> In y l.
Proof.
  unfold Sql.sort_by. induction l as [| x l IH]; simpl.
  - tauto.
  - rewrite In_insert_by, IH. intuition.
Qed.

(** ** ORDER BY *)

Lemma insert_by_perm {A : Type} (le : A -> A -> bool) x l :
  Permutation (x :: l) (Sql.insert_by le x l).
Proof.
  induction l as [| h t IH]; simpl.
  - reflexivity.
  - destruct (le x h); [reflexivity |].
    rewrite perm_swap. now apply perm_skip.
Qed.

Lemma sort_by_perm {A : Type} (le : A -> A -> bool) l :
  Permutation l (Sql.sort_by le l).
Proof.
  unfold Sql.sort_by. induction l as [| x l IH]; simpl.
  - reflexivity.
  - rewrite <- insert_by_perm. now apply perm_skip.
Qed.

Lemma map_snd_combine {A B : Type} (l1 : list A) (l2 : list B) :
  List.length l1 = List.length l2 -> map snd (combine l1 l2) = l2.
Proof.
  revert l2. induction l1 as [| x l1 IH]; intros [| y l2]; simpl;
    try discriminate; try reflexivity.
  intros [= H]. now rewrite IH.
Qed.

(** The server's order of the rows is a rearrangement of them. *)
Lemma arrange_perm {A : Type} (ties : nat -> nat) (l : list A) :
  Permutation l (Sql.arrange ties l).
Proof.
  unfold Sql.arrange. rewrite <- sort_by_perm, map_snd_combine.
  - reflexivity.
  - now rewrite length_map, length_seq.
Qed.

Lemma order_by_perm {A : Type} (le : A -> A -> bool) ties (l : list A) :
  Permutation l (Sql.order_by le ties l).
Proof.
  unfold Sql.order_by. rewrite <- sort_by_perm. apply arrange_perm.
Qed.

Section Ranks.

Context {A : Type}.

Let by_rank (x y : nat * A) : bool := Nat.leb (fst x) (fst y).

Lemma insert_by_rank (r1 r2 : list nat) (l1 l2 : list A) rx x :
  List.length r1 = List.length l1 ->
  Forall (fun r => r < rx)%nat r1 ->
  Forall (fun r => rx <= r)%nat r2 ->
  Sql.insert_by by_rank (rx, x) (combine (r1 ++ r2) (l1 ++ l2)) =
  combine (r1 ++ rx :: r2) (l1 ++ x :: l2).
Proof.
  revert l1. induction r1 as [| r r1 IH]; intros [| y l1]; simpl;
    try discriminate.
  - intros _ _ H2. destruct r2 as [| r r2], l2 as [| y l2]; simpl;
      try reflexivity.
    inversion H2 as [| ? ? Hr _]; subst. unfold by_rank. cbn [fst].
    apply Nat.leb_le in Hr. now rewrite Hr.
  - intros [= Hlen] H1 H2. inversion H1 as [| ? ? Hr H1']; subst.
    unfold by_rank at 1. cbn [fst].
    apply Nat.leb_gt in Hr. rewrite Hr. f_equal. now apply IH.
Qed.

Lemma sorted_ranks_split (r1 r2 : list nat) rx :
  StronglySorted lt (r1 ++ rx :: r2) ->
  StronglySorted lt (r1 ++ r2) /\
  Forall (fun r => r < rx)%nat r1 /\ Forall (fun r => rx <= r)%nat r2.
Proof.
  induction r1 as [| r r1 IH]; simpl; intros H.
  - inversion H as [| ? ? Hs Hall]; subst. split; [exact Hs |].
    split; [constructor |].
    eapply Forall_impl; [| exact Hall]. intros; lia.
  - inversion H as [| ? ? Hs Hall]; subst.
    destruct (IH Hs) as [Hs' [H1 H2]].
    apply Forall_app in Hall. destruct Hall as [Ha Hb].
    inversion Hb as [| ? ? Hrx Hb']; subst.
    split; [| split; [constructor; assumption | exact H2]].
    constructor; [exact Hs' |]. apply Forall_app. now split.
Qed.

Lemma sort_by_ranks (l : list A) :
  forall l' ranks,
    Permutation l l' ->
    List.length ranks = List.length l' ->
    StronglySorted lt ranks ->
    exists ties,
      Sql.sort_by by_rank (combine (map ties (seq 0 (List.length l))) l) =
      combine ranks l'.
Proof.
  induction l as [| x l IH]; intros l' ranks Hperm Hlen Hsorted.
  - apply Permutation_nil in Hperm. subst l'.
    destruct ranks; [| discriminate]. now exists (fun _ => 0%nat).
  - assert (Hin : In x l') by (apply (Permutation_in _ Hperm); now left).
    apply in_split in Hin. destruct Hin as [l1 [l2 ->]].
    apply Permutation_cons_app_inv in Hperm.
    rewrite length_app in Hlen. cbn [List.length] in Hlen.
    assert (Hranks : ranks =
              firstn (List.length l1) ranks ++ skipn (List.length l1) ranks)
      by (symmetry; apply firstn_skipn).
    assert (Hl1 : List.length (firstn (List.length l1) ranks) =
                  List.length l1) by (rewrite length_firstn; lia).
    destruct (skipn (List.length l1) ranks) as [| rx r2] eqn:Hskip.
    { apply (f_equal (@List.length nat)) in Hskip.
      rewrite length_skipn in Hskip. simpl in Hskip. lia. }
    set (r1 := firstn (List.length l1) ranks) in *.
    rewrite Hranks in Hsorted.
    destruct (sorted_ranks_split _ _ _ Hsorted) as [Hs [H1 H2]].
    destruct (IH (l1 ++ l2) (r1 ++ r2) Hperm) as [ties0 Hties0];
      [| exact Hs |].
    { apply (f_equal (@List.length nat)) in Hranks.
      rewrite !length_app in *. cbn [List.length] in Hranks. lia. }
    set (ties := fun i => match i with O => rx | S j => ties0 j end).
    assert (Hshift : map ties (seq 1 (List.length l)) =
                     map ties0 (seq 0 (List.length l)))
      by (rewrite <- seq_shift, map_map; reflexivity).
    exists ties.
    change (Sql.insert_by by_rank (rx, x)
              (Sql.sort_by by_rank
                 (combine (map ties (seq 1 (List.length l))) l)) =
            combine ranks (l1 ++ x :: l2)).
    rewrite Hshift, Hties0, Hranks. now apply insert_by_rank.
Qed.

End Ranks.

Lemma seq_sorted a n : StronglySorted lt (seq a n).
Proof.
  revert a. induction n as [| n IH]; intros a; simpl; constructor.
  - apply IH.
  - apply Forall_forall. intros x Hx. apply in_seq in Hx. lia.
Qed.

(** Every rearrangement of the rows is one the server may hold. *)
Lemma arrange_any {A : Type} (l l' : list A) :
  Permutation l l' -> exists ties, Sql.arrange ties l = l'.
Proof.
  intros Hperm.
  destruct (sort_by_ranks l l' (seq 0 (List.length l')) Hperm)
    as [ties Hties].
  - apply length_seq.
  - apply seq_sorted.
  - exists ties. unfold Sql.arrange. rewrite Hties.
    apply map_snd_combine, length_seq.
Qed.

Lemma sort_by_sorted_id {A : Type} (le : A -> A -> bool) (l : list A) :
  StronglySorted (fun a b => le a b = true) l -> Sql.sort_by le l = l.
Proof.
  unfold Sql.sort_by. induction 1 as [| x l _ IH Hall]; simpl;
    [reflexivity |].
  rewrite IH. destruct l as [| h t]; [reflexivity |]. simpl.
  inversion Hall as [| ? ? Hxh _]; subst. now rewrite Hxh.
Qed.

(** The statement may return the rows in any order that is sorted by
    the key: ties can come out either way. *)
Lemma order_by_any {A : Type} (le : A -> A -> bool) (l l' : list A) :
  Permutation l l' ->
  StronglySorted (fun a b => le a b = true) l' ->
  exists ties, Sql.order_by le ties l = l'.
Proof.
  intros Hperm Hsorted. destruct (arrange_any l l' Hperm) as [ties Hties].
  exists ties. unfold Sql.order_by. rewrite Hties.
  now apply sort_by_sorted_id.
Qed.

Lemma In_order_by {A : Type} (le : A -> A -> bool) ties y l :
  In y (Sql.order_by le ties l) <-> In y l.
Proof.
  split; apply Permutation_in;
    [symmetry |]; apply order_by_perm.
Qed.

Section OrderBy.

Context {A : Type}.
Variable le : A -> A -> bool.
Hypothesis le_total : forall a b, le a b = false -> le b a = true.
Hypothesis le_trans :
  forall a b c, le a b = true -> le b c = true -> le a c = true.

Let before (a b : A) : Prop := le a b = true.

Lemma insert_by_sorted x l :
  StronglySorted before l -> StronglySorted before (Sql.insert_by le x l).
Proof.
  induction 1 as [| h t Hs IH Hall]; simpl.
  - repeat constructor.
  - destruct (le x h) eqn:Hxh.
    + constructor; [now constructor |].
      constructor; [exact Hxh |].
      eapply Forall_impl; [| exact Hall]. intros y Hy.
      now apply (le_trans x h y).
    + constructor; [exact IH |].
      apply Forall_forall. intros y Hy. apply In_insert_by in Hy.
      destruct Hy as [-> | Hy].
      * now apply le_total.
      * rewrite Forall_forall in Hall. now apply Hall.
Qed.

Lemma sort_by_sorted l : StronglySorted before (Sql.sort_by le l).
Proof.
  unfold Sql.sort_by. induction l as [| x l IH]; simpl.
  - constructor.
  - now apply insert_by_sorted.
Qed.

Lemma order_by_sorted ties l :
  StronglySorted before (Sql.order_by le ties l).
Proof. unfold Sql.order_by. apply sort_by_sorted. Qed.

End OrderBy.

Lemma time_asc_total a b : Sql.time_asc a b = false -> Sql.time_asc b a = true.
Proof.
  unfold Sql.time_asc. rewrite Z.leb_gt, Z.leb_le. lia.
Qed.

Lemma time_asc_trans a b c :
  Sql.time_asc a b = true -> Sql.time_asc b c = true -> Sql.time_asc a c = true.
Proof.
  unfold Sql.time_asc. rewrite !Z.leb_le. lia.
Qed.

(** The rows of the FROM clause extend rows of the auction table. *)
Lemma from_listing_In db j :
  In j (Sql.from_listing db) -> In (Sql.j_ah j) (Sql.auctionhouse db).
Proof.
  unfold Sql.from_listing, Sql.ah_ii_c, Sql.ah_ii. intros H.
  apply left_join_In in H. destruct H as [x [it [Hx [-> _]]]].
  apply left_join_In in Hx. destruct Hx as [y [c [Hy [-> _]]]].
  apply left_join_In in Hy. destruct Hy as [ah [ii [Hah [-> _]]]].
  exact Hah.
Qed.

Lemma scan_auction_shows r a :
  scan_auction r = inr a -> shows a (Sql.col_ah r).
Proof.
  unfold scan_auction, bind, scan_int, scan_string.
  repeat match goal with
         | |- context [if ?c then _ else _] => destruct c; [| discriminate]
         | |- context [match ?x with Some _ => _ | None => _ end] =>
             destruct x; [| discriminate]
         end.
  intros [= <-]. repeat split.
Qed.

Lemma time_left_shows a now ah : shows a ah -> shows (time_left a now) ah.
Proof. unfold time_left. now destruct (0 <? _). Qed.

Lemma scan_auctions_In clock i rows a :
  In a (fst (scan_auctions clock i rows)) ->
  exists r a0 now,
    In r rows /\ scan_auction r = inr a0 /\ a = time_left a0 now.
Proof.
  revert i. induction rows as [| r rest IH]; intros i; simpl; [tauto |].
  destruct (scan_auction r) as [err | a0] eqn:Hscan; simpl.
  - intros H. destruct (IH _ H) as [r' [a' [now [Hin H']]]].
    exists r', a', now. tauto.
  - intros [<- | H].
    + exists r, a0, (clock i). tauto.
    + destruct (IH _ H) as [r' [a' [now [Hin H']]]].
      exists r', a', now. tauto.
Qed.

(** Every listing scanned from selected rows shows the auction row of one
    of them. *)
Lemma scanned_rows_show clock rows js a :
  rows = map Sql.select_listing js ->
  In a (fst (scan_auctions clock 0 rows)) ->
  exists j, In j js /\ shows a (Sql.j_ah j).
Proof.
  intros -> H. apply scan_auctions_In in H.
  destruct H as [r [a0 [now [Hin [Hscan ->]]]]].
  apply in_map_iff in Hin. destruct Hin as [j [<- Hj]].
  exists j. split; [exact Hj |].
  apply time_left_shows. apply (scan_auction_shows _ _ Hscan).
Qed.

Lemma filter_andb {A : Type} (p q : A -> bool) l :
  filter (fun x => p x && q x) l = filter p (filter q l).
Proof.
  induction l as [| x l IH]; simpl; [reflexivity |].
  destruct (q x); simpl; rewrite IH, ?andb_true_r, ?andb_false_r;
    [reflexivity |].
  reflexivity.
Qed.

Lemma stats_query_same_live now db db' :
  same_live now db db' ->
  Sql.stats_query db now = Sql.stats_query db' now /\
  Sql.bid_query db now = Sql.bid_query db' now.
Proof.
  intros [Hah [Hii _]]. split.
  - unfold Sql.stats_query. now rewrite !stats_rows_live, Hah, Hii.
  - unfold Sql.bid_query, Sql.bid_rows. now rewrite !filter_andb, Hah.
Qed.

Lemma listing_rows_live ties db now j :
  In j (Sql.listing_rows ties db now) ->
  In (Sql.j_ah j) (Sql.auctionhouse db) /\ now < Sql.ah_time (Sql.j_ah j).
Proof.
  unfold Sql.listing_rows. rewrite In_order_by, filter_In.
  intros [Hin Hlive]. split; [now apply from_listing_In |].
  now apply Z.ltb_lt.
Qed.

Lemma search_rows_live p1 p2 ties db now j :
  In j (Sql.search_rows p1 p2 ties db now) ->
  In (Sql.j_ah j) (Sql.auctionhouse db) /\ now < Sql.ah_time (Sql.j_ah j).
Proof.
  unfold Sql.search_rows. rewrite In_order_by, filter_In.
  intros [Hin Hcond]. apply andb_true_iff in Hcond. destruct Hcond as [Hlive _].
  split; [now apply from_listing_In |].
  now apply Z.ltb_lt.
Qed.

(** C1.  Every listing in a listing or search response shows a row of the
    auction table whose expiry is later than the store's clock when the
    statement ran; and the statistics response is the same for two stores
    that differ, at each of the two statements, only in rows that had
    expired by then. *)
Theorem expired_never_returned (e : Env) (r : Request) :
  (forall a, In a (auctions_of (fst (handleGetAuctions e r))) ->
     exists ah, In ah (Sql.auctionhouse (env_db e 0)) /\ shows a ah /\
                env_unix_timestamp e 0 < Time a) /\
  (forall a, In a (auctions_of (fst (handleSearch e r))) ->
     exists ah, In ah (Sql.auctionhouse (env_db e 0)) /\ shows a ah /\
                env_unix_timestamp e 0 < Time a) /\
  (forall db',
     same_live (env_unix_timestamp e 0) (env_db e 0) (db' 0%nat) ->
     same_live (env_unix_timestamp e 1) (env_db e 1) (db' 1%nat) ->
     handleGetStats (with_db e db') r = handleGetStats e r).
Proof.
  assert (Hshow : forall a j now,
             shows a (Sql.j_ah j) ->
             In (Sql.j_ah j) (Sql.auctionhouse (env_db e 0)) /\
               now < Sql.ah_time (Sql.j_ah j) ->
             exists ah, In ah (Sql.auctionhouse (env_db e 0)) /\ shows a ah /\
                        now < Time a).
  { intros a j now Hs [Hin Hlt]. exists (Sql.j_ah j).
    repeat split; try apply Hs; trivial.
    destruct Hs as (_ & _ & _ & _ & _ & -> & _). exact Hlt. }
  split; [| split].
  - intros a. rewrite handleGetAuctions_page. cbn zeta.
    unfold db_Query. destruct (env_fault e _); [intros [] |].
    unfold Sql.listing_query.
    destruct ((50 <? 0) || _); [intros [] |].
    cbn [fst auctions_of]. intros Ha.
    eapply scanned_rows_show in Ha; [| reflexivity].
    destruct Ha as [j [Hj Hs]]. apply (Hshow a j _ Hs).
    eapply listing_rows_live.
    rewrite limit_rows_firstn, offset_rows_skipn in Hj.
    apply In_firstn, In_skipn in Hj. exact Hj.
  - intros a. unfold handleSearch.
    destruct (String.eqb _ ""); [intros [] |].
    unfold db_Query. destruct (env_fault e _); [intros [] |].
    unfold Sql.search_query. cbn [fst auctions_of]. intros Ha.
    eapply scanned_rows_show in Ha; [| reflexivity].
    destruct Ha as [j [Hj Hs]]. apply (Hshow a j _ Hs).
    eapply search_rows_live.
    rewrite limit_rows_firstn in Hj. apply In_firstn in Hj. exact Hj.
  - intros db' H0 H1.
    apply stats_query_same_live in H0. apply stats_query_same_live in H1.
    destruct H0 as [H0 _]. destruct H1 as [_ H1].
    unfold handleGetStats, db_QueryRow, db_Query, with_db.
    cbn [env_fault env_db env_unix_timestamp]. now rewrite H0, H1.
Qed.

Lemma expired_never_returned_witness :
  handleGetStats
    (with_db sample_env
       (fun _ =>
          Sql.mk_db [sample_ah; Sql.mk_ah 2 7 101 5 900 1000 0 0 10 5]
            [Sql.mk_ii 100 25 1] [Sql.mk_c 5 "Thrall"]
            [Sql.mk_it 25 "Worn Shortsword" 1 2]))
    (mkRequest []) =
  handleGetStats sample_env (mkRequest []).
Proof.
  apply (expired_never_returned sample_env (mkRequest [])); repeat split.
Defined.

(** ** Missing references *)

Lemma scan_auction_resolves j :
  scannable j = true ->
  exists a, scan_auction (Sql.select_listing j) = inr a /\ resolves j a.
Proof.
  unfold scannable, fits_ah. intros H.
  repeat match type of H with
         | (_ && _) = true => apply andb_true_iff in H; destruct H as [H ?]
         end.
  destruct j as [ah [ii |] c it]; cbn [Sql.j_ii Sql.j_ah Sql.j_it Sql.j_c] in *;
    [| discriminate].
  match goal with
  | Hii : (_ && _) = true |- _ =>
      apply andb_true_iff in Hii; destruct Hii as [Hentry Hcount]
  end.
  assert (Hit : GoInt.fits
                  (match it with Some t => Sql.it_Quality t | None => 0 end)
                = true /\
                GoInt.fits
                  (match it with Some t => Sql.it_ItemLevel t | None => 0 end)
                = true).
  { destruct it as [t |]; [| split; reflexivity].
    match goal with
    | Ht : (_ && _) = true |- _ => apply andb_true_iff in Ht; exact Ht
    end. }
  destruct Hit as [Hq Hl].
  unfold scan_auction, bind, scan_int, scan_string, Sql.select_listing.
  cbn [Sql.col_ah Sql.col_itemEntry Sql.col_count Sql.col_owner_name
       Sql.col_item_name Sql.col_quality Sql.col_item_level
       Sql.j_ii Sql.j_ah Sql.j_it Sql.j_c option_map Sql.coalesce].
  repeat match goal with
         | Hf : GoInt.fits ?z = true |- context [GoInt.fits ?z] => rewrite Hf
         end.
  destruct c as [c |], it as [t |];
    cbn [option_map Sql.coalesce] in *;
    repeat match goal with
           | Hf : GoInt.fits ?z = true |- context [GoInt.fits ?z] => rewrite Hf
           end;
    eexists; (split; [reflexivity |]); repeat split.
Qed.

Lemma time_left_resolves j a now : resolves j a -> resolves j (time_left a now).
Proof. unfold time_left. now destruct (0 <? _). Qed.

(** When every row scans, the loop keeps them all, in order, and logs
    nothing. *)
Lemma scan_auctions_resolves clock i js :
  forallb scannable js = true ->
  Forall2 resolves js
    (fst (scan_auctions clock i (map Sql.select_listing js))) /\
  snd (scan_auctions clock i (map Sql.select_listing js)) = [].
Proof.
  revert i. induction js as [| j js IH]; intros i H; simpl.
  - split; constructor.
  - simpl in H. apply andb_true_iff in H. destruct H as [Hj Hjs].
    destruct (scan_auction_resolves j Hj) as [a [-> Ha]].
    destruct (IH (S i) Hjs) as [IH1 IH2]. simpl. split; [| exact IH2].
    constructor; [now apply time_left_resolves | exact IH1].
Qed.

(** The owner and the item template degrade to placeholders: a listing
    whose owner has no character row is returned as owned by 'Unknown',
    one whose item has no template as an 'Unknown Item' of quality and
    level 0. *)
Lemma missing_owner_or_template_placeholders :
  (exists a t,
     handleGetAuctions no_owner_env (mkRequest []) =
       (JsonAuctions [a] 1 50, t) /\
     OwnerName a = "Unknown" /\ ItemName a = "Worn Shortsword") /\
  (exists a t,
     handleGetAuctions no_template_env (mkRequest []) =
       (JsonAuctions [a] 1 50, t) /\
     OwnerName a = "Thrall" /\ ItemName a = "Unknown Item" /\
     Quality a = 0 /\ ItemLevel a = 0).
Proof.
  split; eexists; eexists; (split; [vm_compute; reflexivity |]);
    repeat split.
Qed.

(** C7 fails on the code.  A live listing whose item has no row in
    [item_instance] is selected by the listing statement, with the
    placeholder item name, but [ii.itemEntry] and [ii.count] are NULL and
    are scanned into [int] fields: the scan fails at column 10, the row is
    logged and left out of the response. *)
Theorem missing_item_instance_dropped :
  Sql.listing_query 50 0 (env_ties no_instance_env 0) no_instance_db 1000 =
    Some [Sql.mk_cols sample_ah None None (Some "Thrall")
            (Some "Unknown Item") (Some 0) (Some 0)] /\
  handleGetAuctions no_instance_env (mkRequest []) =
    (JsonAuctions [] 1 50,
     [Queried (QListing 50 0);
      Logged "Error scanning auction: %v" (ScanNull 10)]).
Proof. split; vm_compute; reflexivity. Qed.

(** ** LIKE and substrings *)

Lemma list_ascii_of_string_app (a b : string) :
  list_ascii_of_string (a ++ b) = list_ascii_of_string a ++ list_ascii_of_string b.
Proof. induction a as [| c a IH]; simpl; [reflexivity | now rewrite IH]. Qed.

(** A leading [%] either matches nothing, or swallows one character. *)
Lemma like_percent p s :
  Sql.like_chars ("%"%char :: p) s =
  Sql.like_chars p s ||
  match s with
  | [] => false
  | _ :: s' => Sql.like_chars ("%"%char :: p) s'
  end.
Proof. destruct s; reflexivity. Qed.

Lemma like_percent_only s : Sql.like_chars ["%"%char] s = true.
Proof.
  induction s as [| x s IH]; rewrite like_percent; [reflexivity |].
  rewrite IH. apply orb_true_r.
Qed.

Lemma like_plain_char c p s :
  plain_char c = true ->
  Sql.like_chars (c :: p) s = Sql.literal c (Sql.like_chars p) s.
Proof.
  unfold plain_char. intros H. apply negb_true_iff in H.
  apply orb_false_iff in H. destruct H as [H Hb].
  apply orb_false_iff in H. destruct H as [Hp Hu].
  cbn [Sql.like_chars]. now rewrite Hp, Hu, Hb.
Qed.

(** A plain term followed by [%] matches the strings it is a prefix of. *)
Lemma like_plain_prefix t s :
  forallb plain_char t = true ->
  Sql.like_chars (t ++ ["%"%char]) s = prefix_ci t s.
Proof.
  revert s. induction t as [| c t IH]; intros s H.
  - apply like_percent_only.
  - simpl in H. apply andb_true_iff in H. destruct H as [Hc Ht].
    cbn [app]. rewrite (like_plain_char _ _ _ Hc).
    destruct s as [| x s]; simpl; [reflexivity |]. now rewrite IH.
Qed.

(** A plain term between two [%] matches the strings it occurs in. *)
Lemma like_plain_infix t s :
  forallb plain_char t = true ->
  Sql.like_chars ("%"%char :: t ++ ["%"%char]) s = infix_ci t s.
Proof.
  intros Ht. induction s as [| x s IH]; rewrite like_percent.
  - rewrite (like_plain_prefix _ _ Ht). simpl. reflexivity.
  - rewrite (like_plain_prefix _ _ Ht), IH. reflexivity.
Qed.

(** [infix_ci] is the substring relation up to letter case. *)
Lemma prefix_ci_spec t s :
  prefix_ci t s = true <->
  exists mid post,
    s = mid ++ post /\ map Sql.lower mid = map Sql.lower t.
Proof.
  revert s. induction t as [| c t IH]; intros s.
  - simpl. split; [| trivial]. intros _. now exists [], s.
  - destruct s as [| x s]; simpl.
    + split; [discriminate |]. intros [mid [post [Hs Hm]]].
      destruct mid; [discriminate | discriminate].
    + rewrite andb_true_iff, IH. unfold Sql.ci_eqb. rewrite Ascii.eqb_eq.
      split.
      * intros [Hc [mid [post [-> Hm]]]]. exists (x :: mid), post.
        simpl. now rewrite Hm, Hc.
      * intros [mid [post [Hs Hm]]]. destruct mid as [| y mid]; [discriminate |].
        simpl in Hs, Hm. injection Hs as <- ->. injection Hm as Hc Hm.
        split; [now symmetry |]. now exists mid, post.
Qed.

Lemma infix_ci_spec t s :
  infix_ci t s = true <->
  exists pre mid post,
    s = pre ++ mid ++ post /\ map Sql.lower mid = map Sql.lower t.
Proof.
  induction s as [| x s IH]; simpl.
  - rewrite orb_false_r, prefix_ci_spec. split.
    + intros [mid [post [Hs Hm]]]. now exists [], mid, post.
    + intros [pre [mid [post [Hs Hm]]]].
      destruct pre; [| discriminate]. now exists mid, post.
  - rewrite orb_true_iff, IH, prefix_ci_spec. split.
    + intros [[mid [post [Hs Hm]]] | [pre [mid [post [-> Hm]]]]].
      * now exists [], mid, post.
      * now exists (x :: pre), mid, post.
    + intros [pre [mid [post [Hs Hm]]]]. destruct pre as [| y pre].
      * left. now exists mid, post.
      * right. simpl in Hs. injection Hs as _ ->. now exists pre, mid, post.
Qed.

(** For a plain term, the WHERE clause of the search statement is the
    substring test on the two joined names. *)
Lemma search_condition_plain term j :
  plain term = true ->
  Sql.search_condition ("%" ++ term ++ "%") ("%" ++ term ++ "%") j =
  name_matches term j.
Proof.
  intros Hplain. unfold Sql.search_condition, name_matches, Sql.like, contains_ci.
  assert (Hlike : forall s,
             Sql.like_chars (list_ascii_of_string ("%" ++ term ++ "%"))
               (list_ascii_of_string s) =
             infix_ci (list_ascii_of_string term) (list_ascii_of_string s)).
  { intros s. cbn [append list_ascii_of_string].
    rewrite list_ascii_of_string_app. apply like_plain_infix. exact Hplain. }
  destruct (Sql.j_it j) as [it |], (Sql.j_c j) as [c |]; cbn [option_map];
    rewrite ?Hlike;
    repeat match goal with
           | |- context [infix_ci ?t ?s] => destruct (infix_ci t s)
           end; reflexivity.
Qed.

(** ** Search *)

Lemma search_rows_plain term ties db now :
  plain term = true ->
  Sql.search_rows ("%" ++ term ++ "%") ("%" ++ term ++ "%") ties db now =
  Sql.order_by Sql.time_asc ties (matching_listings term db now).
Proof.
  intros Hplain. unfold Sql.search_rows, matching_listings. f_equal.
  apply filter_ext. intros j. now rewrite search_condition_plain.
Qed.

Lemma matching_listings_live term db now :
  incl (matching_listings term db now) (live_rows db now).
Proof.
  intros j Hj. unfold matching_listings in Hj.
  apply filter_In in Hj. destruct Hj as [Hin Hcond].
  apply andb_true_iff in Hcond. destruct Hcond as [Hlive _].
  unfold live_rows. apply filter_In. now split.
Qed.

Lemma order_by_expiry ties rows :
  StronglySorted by_expiry (Sql.order_by Sql.time_asc ties rows).
Proof.
  pose proof (order_by_sorted _ time_asc_total time_asc_trans ties rows) as H.
  induction H as [| j js _ IH Hall]; constructor; [exact IH |].
  eapply Forall_impl; [| exact Hall]. intros j'.
  unfold Sql.time_asc, by_expiry. apply Z.leb_le.
Qed.

(** C8, as the code has it.  For a non-empty term without [%], [_] and
    backslash, take the live rows of the joins whose item-template name
    or character name, as the joins found them, contains the term as a
    case-insensitive substring, in order of ascending expiry, rows of
    equal expiry as the store returns them.  When the statement succeeds
    and the first hundred of these rows scan, the response lists exactly
    these hundred, in that order.  The order is a rearrangement of the
    matching rows, sorted by expiry, and every matching row is a live
    listing. *)
Theorem handleSearch_matching (e : Env) (r : Request) :
  Get (URL_Query r) "q" <> "" ->
  plain (Get (URL_Query r) "q") = true ->
  env_fault e (QSearch ("%" ++ Get (URL_Query r) "q" ++ "%")
                       ("%" ++ Get (URL_Query r) "q" ++ "%")) = None ->
  forallb scannable
    (firstn 100
       (Sql.order_by Sql.time_asc (env_ties e 0)
          (matching_listings (Get (URL_Query r) "q") (env_db e 0)
             (env_unix_timestamp e 0)))) = true ->
  exists found auctions,
    found =
      Sql.order_by Sql.time_asc (env_ties e 0)
        (matching_listings (Get (URL_Query r) "q") (env_db e 0)
           (env_unix_timestamp e 0)) /\
    Permutation
      (matching_listings (Get (URL_Query r) "q") (env_db e 0)
         (env_unix_timestamp e 0)) found /\
    StronglySorted by_expiry found /\
    fst (handleSearch e r) = JsonSearch auctions (Get (URL_Query r) "q") /\
    Forall2 resolves (firstn 100 found) auctions /\
    (List.length auctions <= 100)%nat /\
    incl found (live_rows (env_db e 0) (env_unix_timestamp e 0)).
Proof.
  intros Hne Hplain Hfault Hscan.
  eexists. eexists. split; [reflexivity |].
  split; [apply order_by_perm |]. split; [apply order_by_expiry |].
  unfold handleSearch. apply String.eqb_neq in Hne. rewrite Hne.
  unfold db_Query. rewrite Hfault. unfold Sql.search_query.
  rewrite (search_rows_plain _ _ _ _ Hplain), limit_rows_firstn.
  change (Z.to_nat 100) with 100%nat. cbn [fst].
  destruct (scan_auctions_resolves (env_time_now e) 0 _ Hscan) as [Hall _].
  split; [reflexivity |]. split; [exact Hall |]. split.
  - apply Forall2_length in Hall. rewrite <- Hall. apply firstn_le_length.
  - intros j Hj. apply In_order_by in Hj.
    exact (matching_listings_live _ _ _ j Hj).
Qed.

Lemma handleSearch_matching_witness :
  exists auctions,
    fst (handleSearch sample_env (request_with "q" "SHORT")) =
      JsonSearch auctions "SHORT" /\
    Forall2 resolves (matching_listings "SHORT" sample_db 1000) auctions /\
    List.length auctions = 1%nat.
Proof.
  destruct (handleSearch_matching sample_env (request_with "q" "SHORT"))
    as [found [auctions [Hfound [_ [_ [Hresp [Hall _]]]]]]];
    try reflexivity.
  - discriminate.
  - subst found. exists auctions.
    split; [exact Hresp | split; [exact Hall |]].
    apply Forall2_length in Hall. rewrite <- Hall. reflexivity.
Defined.

(** The search claim fails as stated, in two ways.  The WHERE clause tests the joined
    columns, not the COALESCEd ones: a listing shown as owned by 'Unknown'
    is not found by the term "Unknown".  And the term is pasted into the
    LIKE pattern as it is: the term "_" finds every listing with a name,
    though no name contains an underscore. *)
Lemma handleSearch_counterexample :
  (List.length (claimed_listings "Unknown" no_owner_db 1000) = 1%nat /\
   auctions_of (fst (handleSearch no_owner_env (request_with "q" "Unknown"))) =
     []) /\
  (claimed_listings "_" sample_db 1000 = [] /\
   List.length
     (auctions_of (fst (handleSearch sample_env (request_with "q" "_")))) =
     1%nat).
Proof. repeat split; vm_compute; reflexivity. Qed.

Ltac order_cases :=
  repeat match goal with
         | |- context [?x <? ?y] => destruct (Z.ltb_spec x y)
         | |- context [?x =? ?y] => destruct (Z.eqb_spec x y)
         end;
  cbn; intros; try reflexivity; try discriminate; try lia.

Lemma sellers_desc_total a b :
  Sql.sellers_desc a b = false -> Sql.sellers_desc b a = true.
Proof.
  unfold Sql.sellers_desc, Sql.null_ltb, Sql.null_eqb.
  destruct (Sql.col_total_auctions a), (Sql.col_total_auctions b),
    (Sql.col_seller_total_value a), (Sql.col_seller_total_value b);
    order_cases.
Qed.

Lemma sellers_desc_trans a b c :
  Sql.sellers_desc a b = true -> Sql.sellers_desc b c = true ->
  Sql.sellers_desc a c = true.
Proof.
  unfold Sql.sellers_desc, Sql.null_ltb, Sql.null_eqb.
  destruct (Sql.col_total_auctions a), (Sql.col_total_auctions b),
    (Sql.col_total_auctions c), (Sql.col_seller_total_value a),
    (Sql.col_seller_total_value b), (Sql.col_seller_total_value c);
    order_cases.
Qed.

(** ** The seller roll-up *)

Lemma scan_seller_columns r s :
  scan_seller r = inr s ->
  Sql.col_seller_name r = Some (Name s) /\
  Sql.col_total_auctions r = Some (TotalAuctions s) /\
  Sql.col_seller_total_value r = Some (SellerTotalValue s) /\
  Sql.col_seller_unique_items r = Some (SellerUniqueItems s).
Proof.
  unfold scan_seller, bind, scan_int, scan_string.
  destruct r as [[name |] [n |] [v |] [u |]]; cbn; try discriminate;
    repeat match goal with
           | |- context [if ?c then _ else _] => destruct c; try discriminate
           end.
  intros [= <-]. repeat split.
Qed.

Lemma scan_sellers_In rows s :
  In s (fst (scan_sellers rows)) ->
  exists r, In r rows /\ scan_seller r = inr s.
Proof.
  induction rows as [| r rest IH]; simpl; [tauto |].
  destruct (scan_seller r) as [err | s0] eqn:Hscan; simpl.
  - intros H. destruct (IH H) as [r' [Hin H']]. exists r'. tauto.
  - intros [<- | H].
    + exists r. tauto.
    + destruct (IH H) as [r' [Hin H']]. exists r'. tauto.
Qed.

Lemma sellers_desc_before r1 r2 s1 s2 :
  scan_seller r1 = inr s1 -> scan_seller r2 = inr s2 ->
  Sql.sellers_desc r1 r2 = true -> seller_before s1 s2.
Proof.
  intros H1 H2. apply scan_seller_columns in H1, H2.
  destruct H1 as (_ & Hn1 & Hv1 & _), H2 as (_ & Hn2 & Hv2 & _).
  unfold Sql.sellers_desc, seller_before. rewrite Hn1, Hn2, Hv1, Hv2.
  unfold Sql.null_ltb, Sql.null_eqb. order_cases.
Qed.

(** Skipping rows keeps the order. *)
Lemma scan_sellers_sorted rows :
  StronglySorted (fun a b => Sql.sellers_desc a b = true) rows ->
  StronglySorted seller_before (fst (scan_sellers rows)).
Proof.
  induction 1 as [| r rest Hs IH Hall]; simpl; [constructor |].
  destruct (scan_seller r) as [err | s] eqn:Hscan; simpl; [exact IH |].
  constructor; [exact IH |].
  apply Forall_forall. intros s' Hs'.
  apply scan_sellers_In in Hs'. destruct Hs' as [r' [Hin Hscan']].
  rewrite Forall_forall in Hall.
  exact (sellers_desc_before _ _ _ _ Hscan Hscan' (Hall _ Hin)).
Qed.

Lemma In_distinct {A : Type} (eqb : A -> A -> bool) x l :
  In x (Sql.distinct eqb l) -> In x l.
Proof.
  induction l as [| y l IH]; simpl; [tauto |].
  intros [-> | H]; [now left |].
  apply filter_In in H. right. apply IH. tauto.
Qed.

Lemma distinct_complete {A : Type} (eqb : A -> A -> bool) x l :
  (forall a b, eqb a b = true <-> a = b) ->
  In x l -> In x (Sql.distinct eqb l).
Proof.
  intros Heq. induction l as [| y l IH]; simpl; [tauto |].
  intros [-> | H]; [now left |].
  destruct (eqb y x) eqn:Hyx.
  - left. now apply Heq.
  - right. apply filter_In. split; [now apply IH | now rewrite Hyx].
Qed.

Lemma distinct_NoDup {A : Type} (eqb : A -> A -> bool) l :
  (forall a b, eqb a b = true <-> a = b) -> NoDup (Sql.distinct eqb l).
Proof.
  intros Heq. induction l as [| x l IH]; simpl; constructor.
  - intros Hin. apply filter_In in Hin. destruct Hin as [_ Hne].
    assert (Hxx : eqb x x = true) by now apply Heq.
    rewrite Hxx in Hne. discriminate.
  - now apply NoDup_filter.
Qed.

Lemma key_eqb_eq a b : Sql.key_eqb a b = true <-> a = b.
Proof.
  unfold Sql.key_eqb. destruct a as [o1 n1], b as [o2 n2]; cbn [fst snd].
  rewrite andb_true_iff, Z.eqb_eq.
  destruct n1 as [n1 |], n2 as [n2 |]; rewrite ?String.eqb_eq;
    (split; intros H; [destruct H; congruence | split; congruence]).
Qed.

(** The group of a key is the set of live listings of that owner and
    name. *)
Lemma group_of_listings db now owner name :
  Sql.group_of (Sql.seller_rows db now) (owner, Some name) =
  listings_of db now owner name.
Proof.
  unfold Sql.group_of, Sql.seller_rows, listings_of.
  rewrite <- !filter_andb. apply filter_ext. intros j.
  unfold Sql.key_eqb, Sql.group_key, Sql.has_name. cbn [fst snd].
  destruct (Sql.sj_c j) as [c |]; cbn [option_map];
    destruct (owner =? _), (Sql.live now _); cbn;
    rewrite ?andb_true_r, ?andb_false_r; reflexivity.
Qed.

(** A left join followed by the test that a partner was found is the
    join of the rows that have a partner. *)
Lemma left_join_partner {A B : Type} (on : A -> B -> bool) l r :
  filter (fun x : A * option B => match snd x with Some _ => true | None => false end)
    (Sql.left_join on pair l r) =
  Sql.left_join on pair (filter (fun a => existsb (on a) r) l) r.
Proof.
  unfold Sql.left_join. induction l as [| a l IH]; [reflexivity |].
  cbn [flat_map]. rewrite filter_app, IH. cbn [filter].
  destruct (filter (on a) r) as [| b ms] eqn:Hf.
  - assert (Hex : existsb (on a) r = false).
    { destruct (existsb (on a) r) eqn:Hex; [| reflexivity].
      apply existsb_exists in Hex. destruct Hex as [b [Hb Hab]].
      assert (Hin : In b (filter (on a) r)) by (apply filter_In; auto).
      rewrite Hf in Hin. destruct Hin. }
    rewrite Hex. reflexivity.
  - assert (Hex : existsb (on a) r = true).
    { apply existsb_exists. exists b.
      apply filter_In. rewrite Hf. now left. }
    rewrite Hex. cbn [flat_map]. rewrite Hf. f_equal.
    clear. generalize (b :: ms). intros rows.
    induction rows as [| x rows IHr]; simpl; [reflexivity | now rewrite IHr].
Qed.

(** The roll-up does not read the listings whose owner has no character
    row. *)
Lemma seller_rows_owned db now :
  Sql.seller_rows (owned db) now = Sql.seller_rows db now.
Proof.
  unfold Sql.seller_rows, Sql.from_sellers, owned.
  cbn [Sql.auctionhouse Sql.characters Sql.item_instance].
  rewrite <- left_join_partner.
  rewrite <- (filter_left_join _ _
                (fun j => Sql.has_name j)
                (fun x : Sql.auctionhouse_row * option Sql.characters_row =>
                   match snd x with Some _ => true | None => false end))
    by reflexivity.
  rewrite <- filter_andb. apply filter_ext. intros j.
  unfold Sql.has_name. destruct (Sql.sj_c j), (Sql.live now _); reflexivity.
Qed.

(** Every row of the roll-up is the aggregate of the live listings of one
    owner and name. *)
Lemma sellers_query_row ties db now rows row :
  Sql.sellers_query ties db now = Some rows ->
  In row rows ->
  exists owner name,
    listings_of db now owner name <> [] /\
    row = Sql.aggregate_group (Sql.seller_rows db now) (owner, Some name).
Proof.
  unfold Sql.sellers_query. intros [= <-] Hrow.
  apply In_order_by, in_map_iff in Hrow. destruct Hrow as [k [<- Hk]].
  apply In_distinct, in_map_iff in Hk. destruct Hk as [j [<- Hj]].
  assert (Hname : Sql.has_name j = true).
  { unfold Sql.seller_rows in Hj. apply filter_In in Hj.
    destruct Hj as [_ Hj]. apply andb_true_iff in Hj. tauto. }
  unfold Sql.has_name in Hname.
  destruct (Sql.sj_c j) as [c |] eqn:Hc; [| discriminate].
  assert (Hkey : Sql.group_key j =
                 (Sql.ah_itemowner (Sql.sj_ah j), Some (Sql.c_name c))).
  { unfold Sql.group_key. now rewrite Hc. }
  exists (Sql.ah_itemowner (Sql.sj_ah j)), (Sql.c_name c).
  split; [| now rewrite Hkey].
  rewrite <- group_of_listings. intros Hnil.
  assert (Hin : In j (Sql.group_of (Sql.seller_rows db now)
                        (Sql.ah_itemowner (Sql.sj_ah j), Some (Sql.c_name c)))).
  { unfold Sql.group_of. apply filter_In. split; [exact Hj |].
    apply key_eqb_eq. unfold Sql.group_key. now rewrite Hc. }
  rewrite Hnil in Hin. destruct Hin.
Qed.

(** Every live listing whose owner has a character row is counted in a
    row of the roll-up. *)
Lemma sellers_query_complete ties db now rows j c :
  Sql.sellers_query ties db now = Some rows ->
  In j (Sql.from_sellers db) ->
  Sql.live now (Sql.sj_ah j) = true ->
  Sql.sj_c j = Some c ->
  In j (listings_of db now (Sql.ah_itemowner (Sql.sj_ah j)) (Sql.c_name c)) /\
  In (Sql.aggregate_group (Sql.seller_rows db now)
        (Sql.ah_itemowner (Sql.sj_ah j), Some (Sql.c_name c))) rows.
Proof.
  unfold Sql.sellers_query. intros [= <-] Hin Hlive Hc.
  assert (Hj : In j (Sql.seller_rows db now)).
  { unfold Sql.seller_rows. apply filter_In. split; [exact Hin |].
    unfold Sql.has_name. now rewrite Hlive, Hc. }
  assert (Hkey : Sql.group_key j =
                 (Sql.ah_itemowner (Sql.sj_ah j), Some (Sql.c_name c))).
  { unfold Sql.group_key. now rewrite Hc. }
  split.
  - rewrite <- group_of_listings. unfold Sql.group_of. apply filter_In.
    split; [exact Hj |]. apply key_eqb_eq. now rewrite Hkey.
  - apply In_order_by, in_map. apply distinct_complete; [apply key_eqb_eq |].
    rewrite <- Hkey. now apply in_map.
Qed.

Lemma scan_sellers_keeps rows row s :
  In row rows -> scan_seller row = inr s -> In s (fst (scan_sellers rows)).
Proof.
  induction rows as [| r rest IH]; simpl; [tauto |].
  intros [-> | Hin] Hscan.
  - rewrite Hscan. now left.
  - destruct (scan_seller r); simpl; [| right]; now apply IH.
Qed.

Lemma map_preimage {A B : Type} (g : A -> B) (l : list B) :
  (forall x, In x l -> exists y, x = g y) -> exists l', l = map g l'.
Proof.
  induction l as [| x l IH]; intros H.
  - now exists [].
  - destruct (H x (or_introl eq_refl)) as [y ->].
    destruct IH as [l' ->]; [intros; apply H; now right |].
    now exists (y :: l').
Qed.

Lemma NoDup_map_eq {A B : Type} (f : A -> B) (l : list A) a b :
  NoDup (map f l) -> In a l -> In b l -> f a = f b -> a = b.
Proof.
  induction l as [| x l IH]; simpl; [tauto |].
  intros H. inversion H as [| ? ? Hx Hl]; subst.
  intros [-> | Ha] [-> | Hb] Hf; auto.
  - exfalso. apply Hx. rewrite Hf. now apply in_map.
  - exfalso. apply Hx. rewrite <- Hf. now apply in_map.
Qed.

Lemma NoDup_map_in {A B : Type} (f : A -> B) (l : list A) :
  (forall a b, In a l -> In b l -> f a = f b -> a = b) ->
  NoDup l -> NoDup (map f l).
Proof.
  intros Hinj H. induction H as [| x l Hx Hl IH]; simpl; constructor.
  - intros Hin. apply in_map_iff in Hin. destruct Hin as [y [Hy Hin]].
    apply Hx. rewrite <- (Hinj y x); [exact Hin | now right | now left |].
    exact Hy.
  - apply IH. intros a b Ha Hb. apply Hinj; now right.
Qed.

(** The rows of the roll-up are the aggregates of pairwise different
    keys, each the owner and name of some live listing. *)
Lemma sellers_query_keys ties db now rows :
  Sql.sellers_query ties db now = Some rows ->
  exists keys : list (Z * string),
    NoDup keys /\
    (forall k, In k keys -> listings_of db now (fst k) (snd k) <> []) /\
    rows =
      map (fun k => Sql.aggregate_group (Sql.seller_rows db now)
                      (fst k, Some (snd k))) keys.
Proof.
  unfold Sql.sellers_query. intros [= <-].
  pose proof (distinct_NoDup Sql.key_eqb
                (map Sql.group_key (Sql.seller_rows db now)) key_eqb_eq)
    as Hnd.
  destruct (map_preimage (fun k : Z * string => (fst k, Some (snd k)))
              (Sql.distinct Sql.key_eqb
                 (map Sql.group_key (Sql.seller_rows db now))))
    as [ks Hks].
  { intros k Hk. apply In_distinct, in_map_iff in Hk.
    destruct Hk as [j [<- Hj]].
    unfold Sql.seller_rows in Hj. apply filter_In in Hj.
    destruct Hj as [_ Hj]. apply andb_true_iff in Hj.
    destruct Hj as [_ Hname]. unfold Sql.has_name in Hname.
    unfold Sql.group_key. destruct (Sql.sj_c j) as [c |]; [| discriminate].
    now exists (Sql.ah_itemowner (Sql.sj_ah j), Sql.c_name c). }
  assert (Hgroup : forall k, In k ks ->
             listings_of db now (fst k) (snd k) <> []).
  { intros k Hk Hnil.
    assert (Hin : In (fst k, Some (snd k))
                    (Sql.distinct Sql.key_eqb
                       (map Sql.group_key (Sql.seller_rows db now)))).
    { rewrite Hks. now apply (in_map (fun k => (fst k, Some (snd k)))). }
    apply In_distinct, in_map_iff in Hin. destruct Hin as [j [Hkey Hj]].
    assert (Hg : In j (Sql.group_of (Sql.seller_rows db now)
                         (fst k, Some (snd k)))).
    { unfold Sql.group_of. apply filter_In. split; [exact Hj |].
      apply key_eqb_eq. now symmetry. }
    rewrite group_of_listings, Hnil in Hg. destruct Hg. }
  rewrite Hks in Hnd |- *. apply NoDup_map_inv in Hnd. rewrite map_map.
  cbn [fst snd].
  destruct (Permutation_map_inv _ _
              (Permutation_sym
                 (order_by_perm Sql.sellers_desc ties
                    (map (fun k : Z * string =>
                            Sql.aggregate_group (Sql.seller_rows db now)
                              (fst k, Some (snd k))) ks))))
    as [keys [Hrows Hperm]].
  exists keys. split; [| split].
  - exact (Permutation_NoDup Hperm Hnd).
  - intros k Hk. apply Hgroup.
    exact (Permutation_in k (Permutation_sym Hperm) Hk).
  - exact Hrows.
Qed.

(** The rows that scan, with their keys. *)
Lemma scan_sellers_keys {K : Type} (f : K -> Sql.seller_columns) keys :
  exists kept,
    (NoDup keys -> NoDup kept) /\ incl kept keys /\
    Forall2 (fun k s => scan_seller (f k) = inr s) kept
      (fst (scan_sellers (map f keys))).
Proof.
  induction keys as [| k keys [kept [Hnd [Hincl Hall]]]]; simpl.
  - exists []. split; [trivial | split; [apply incl_refl | constructor]].
  - destruct (scan_seller (f k)) as [err | s] eqn:Hscan; simpl.
    + exists kept. split; [| split].
      * intros H. inversion H; auto.
      * now apply incl_tl.
      * exact Hall.
    + exists (k :: kept). split; [| split].
      * intros H. inversion H as [| ? ? Hk Hks]; subst.
        constructor; auto.
      * apply incl_cons; [now left | now apply incl_tl].
      * now constructor.
Qed.

(** The owner of a listing of the roll-up has a character row of that
    name. *)
Lemma listings_of_character db now owner name j :
  In j (listings_of db now owner name) ->
  exists c,
    In c (Sql.characters db) /\ Sql.c_guid c = owner /\ Sql.c_name c = name.
Proof.
  unfold listings_of. rewrite !filter_In. intros [[Hin _] Hkey].
  apply andb_true_iff in Hkey. destruct Hkey as [Howner Hname].
  unfold Sql.from_sellers in Hin. apply left_join_In in Hin.
  destruct Hin as [x [ii [Hx [-> _]]]].
  apply left_join_In in Hx. destruct Hx as [ah [oc [_ [-> Hc]]]].
  cbn [Sql.sj_c Sql.sj_ah fst snd] in Howner, Hname.
  destruct oc as [c |]; [| discriminate].
  destruct Hc as [Hc Hon]. exists c.
  apply Z.eqb_eq in Howner, Hon. apply String.eqb_eq in Hname.
  split; [exact Hc |]. split; congruence.
Qed.

(** C9.  The seller list is ordered by listing count, largest first, and
    among equal counts by total value, largest first.  Its entries are
    the roll-ups of pairwise different pairs of an owner and a character
    name, one entry per pair: each entry carries the name of its pair
    and counts and sums the live listings of that owner under that name,
    of which there is at least one; when the character table has one row
    per guid, no owner has two entries.  Every live listing whose owner's
    character row was found is counted in the roll-up of that owner and
    name, which is in the list when it scans; and the response does not
    change when the listings whose owner has no character row are taken
    out of the store. *)
Theorem handleGetSellers_rollup (e : Env) (r : Request) (sellers : list Seller) :
  fst (handleGetSellers e r) = JsonSellers sellers ->
  StronglySorted seller_before sellers /\
  (forall j c s,
     In j (Sql.from_sellers (env_db e 0)) ->
     Sql.live (env_unix_timestamp e 0) (Sql.sj_ah j) = true ->
     Sql.sj_c j = Some c ->
     In j (listings_of (env_db e 0) (env_unix_timestamp e 0)
             (Sql.ah_itemowner (Sql.sj_ah j)) (Sql.c_name c)) /\
     (scan_seller
        (Sql.aggregate_group
           (Sql.seller_rows (env_db e 0) (env_unix_timestamp e 0))
           (Sql.ah_itemowner (Sql.sj_ah j), Some (Sql.c_name c))) = inr s ->
      In s sellers)) /\
  (exists keys : list (Z * string),
     NoDup keys /\
     (NoDup (map Sql.c_guid (Sql.characters (env_db e 0))) ->
      NoDup (map fst keys)) /\
     Forall2
       (fun k s =>
          Name s = snd k /\
          listings_of (env_db e 0) (env_unix_timestamp e 0) (fst k) (snd k)
            <> [] /\
          TotalAuctions s =
            Z.of_nat (List.length
                        (listings_of (env_db e 0) (env_unix_timestamp e 0)
                           (fst k) (snd k))) /\
          Sql.sum (map (fun j => Sql.ah_buyoutprice (Sql.sj_ah j))
                     (listings_of (env_db e 0) (env_unix_timestamp e 0)
                        (fst k) (snd k))) =
            Some (SellerTotalValue s))
       keys sellers) /\
  (forall s, In s sellers ->
     exists owner,
       listings_of (env_db e 0) (env_unix_timestamp e 0) owner (Name s) <> [] /\
       TotalAuctions s =
         Z.of_nat (List.length
                     (listings_of (env_db e 0) (env_unix_timestamp e 0) owner
                        (Name s))) /\
       Sql.sum (map (fun j => Sql.ah_buyoutprice (Sql.sj_ah j))
                  (listings_of (env_db e 0) (env_unix_timestamp e 0) owner
                     (Name s))) =
         Some (SellerTotalValue s)) /\
  handleGetSellers (with_db e (fun k => owned (env_db e k))) r =
    handleGetSellers e r.
Proof.
  intros Hresp. split; [| split; [| split; [| split]]].
  - revert Hresp. unfold handleGetSellers, db_Query.
    destruct (env_fault e QSellers); [discriminate |].
    unfold Sql.sellers_query. cbn [fst]. intros [= <-].
    apply scan_sellers_sorted.
    apply (order_by_sorted _ sellers_desc_total sellers_desc_trans).
  - intros j c s Hin Hlive Hc. revert Hresp. unfold handleGetSellers, db_Query.
    destruct (env_fault e QSellers); [discriminate |].
    destruct (Sql.sellers_query _ _ _) as [rows |] eqn:Hq; [| discriminate].
    cbn [fst]. intros [= <-].
    destruct (sellers_query_complete _ _ _ _ _ _ Hq Hin Hlive Hc) as [Hg Hrow].
    split; [exact Hg |]. intros Hscan.
    exact (scan_sellers_keeps _ _ _ Hrow Hscan).
  - revert Hresp. unfold handleGetSellers, db_Query.
    destruct (env_fault e QSellers); [discriminate |].
    destruct (Sql.sellers_query _ _ _) as [rows |] eqn:Hq; [| discriminate].
    cbn [fst]. intros [= <-].
    destruct (sellers_query_keys _ _ _ _ Hq) as [keys [Hnd [Hne ->]]].
    destruct (scan_sellers_keys
                (fun k : Z * string =>
                   Sql.aggregate_group
                     (Sql.seller_rows (env_db e 0) (env_unix_timestamp e 0))
                     (fst k, Some (snd k))) keys)
      as [kept [Hkept [Hincl Hall]]].
    exists kept. split; [now apply Hkept |]. split.
    + intros Hguid. apply NoDup_map_in; [| now apply Hkept].
      intros a b Ha Hb Hfst.
      pose proof (Hne a (Hincl a Ha)) as Hna.
      pose proof (Hne b (Hincl b Hb)) as Hnb.
      destruct (listings_of (env_db e 0) (env_unix_timestamp e 0)
                  (fst a) (snd a)) as [| ja la] eqn:Hla; [congruence |].
      destruct (listings_of (env_db e 0) (env_unix_timestamp e 0)
                  (fst b) (snd b)) as [| jb lb] eqn:Hlb; [congruence |].
      destruct (listings_of_character (env_db e 0) (env_unix_timestamp e 0)
                  (fst a) (snd a) ja)
        as [ca [Hca [Hga Hnamea]]]; [rewrite Hla; now left |].
      destruct (listings_of_character (env_db e 0) (env_unix_timestamp e 0)
                  (fst b) (snd b) jb)
        as [cb [Hcb [Hgb Hnameb]]]; [rewrite Hlb; now left |].
      assert (Heq : ca = cb).
      { apply (NoDup_map_eq Sql.c_guid _ ca cb Hguid Hca Hcb). congruence. }
      destruct a as [oa na], b as [ob nb]. cbn [fst snd] in *. congruence.
    + revert Hincl. clear Hkept.
      induction Hall as [| k s kept sellers Hscan _ IH]; intros Hincl;
        constructor.
      * apply scan_seller_columns in Hscan.
        destruct Hscan as (Hname & Hcount & Hvalue & _).
        unfold Sql.aggregate_group in Hname, Hcount, Hvalue.
        cbn [Sql.col_seller_name Sql.col_total_auctions
             Sql.col_seller_total_value snd] in Hname, Hcount, Hvalue.
        rewrite group_of_listings in Hcount, Hvalue.
        injection Hname as Hname. injection Hcount as Hcount.
        repeat split;
          [now symmetry | apply Hne, Hincl; now left | now symmetry
          | exact Hvalue].
      * apply IH. intros x Hx. apply Hincl. now right.
  - intros s Hs. revert Hresp Hs. unfold handleGetSellers, db_Query.
    destruct (env_fault e QSellers); [discriminate |].
    destruct (Sql.sellers_query _ _ _) as [rows |] eqn:Hq; [| discriminate].
    cbn [fst]. intros [= <-] Hs.
    apply scan_sellers_In in Hs. destruct Hs as [row [Hrow Hscan]].
    destruct (sellers_query_row _ _ _ _ _ Hq Hrow) as [owner [name [Hne ->]]].
    apply scan_seller_columns in Hscan.
    destruct Hscan as (Hname & Hcount & Hvalue & _).
    unfold Sql.aggregate_group in Hname, Hcount, Hvalue.
    cbn [Sql.col_seller_name Sql.col_total_auctions
         Sql.col_seller_total_value snd] in Hname, Hcount, Hvalue.
    rewrite group_of_listings in Hcount, Hvalue.
    injection Hname as ->. injection Hcount as Hcount.
    exists owner. repeat split; [exact Hne | now symmetry | exact Hvalue].
  - unfold handleGetSellers, db_Query, with_db, Sql.sellers_query.
    cbn [env_fault env_db env_unix_timestamp env_ties].
    now rewrite seller_rows_owned.
Qed.

Lemma handleGetSellers_rollup_witness :
  StronglySorted seller_before
    [mkSeller "Jaina" 2 1300 2; mkSeller "Thrall" 1 15000 1].
Proof.
  apply (handleGetSellers_rollup market_env (mkRequest [])).
  reflexivity.
Defined.

(** * Further properties of the handlers *)

(** ** What a scanned row looks like *)

Lemma scan_auction_inr j a :
  scan_auction (Sql.select_listing j) = inr a ->
  resolves j a /\ TimeLeft a = "" /\ Sql.j_ii j <> None.
Proof.
  unfold scan_auction, bind, scan_int, scan_string, Sql.select_listing.
  destruct j as [ah [ii |] [c |] [it |]];
    cbn [Sql.col_ah Sql.col_itemEntry Sql.col_count Sql.col_owner_name
         Sql.col_item_name Sql.col_quality Sql.col_item_level
         Sql.j_ii Sql.j_ah Sql.j_it Sql.j_c option_map Sql.coalesce];
    repeat match goal with
           | |- context [if ?c then _ else _] => destruct c; [| discriminate]
           end;
    try discriminate;
    intros [= <-]; repeat split; discriminate.
Qed.

(** The only NULL that makes the scan of a listing row fail is that of a
    missing item instance, at column 10; a missing owner or template
    never does. *)
Lemma scan_auction_null j i :
  scan_auction (Sql.select_listing j) = inl (ScanNull i) ->
  i = 10%nat /\ Sql.j_ii j = None.
Proof.
  unfold scan_auction, bind, scan_int, scan_string, Sql.select_listing.
  destruct j as [ah [ii |] [c |] [it |]];
    cbn [Sql.col_ah Sql.col_itemEntry Sql.col_count Sql.col_owner_name
         Sql.col_item_name Sql.col_quality Sql.col_item_level
         Sql.j_ii Sql.j_ah Sql.j_it Sql.j_c option_map Sql.coalesce];
    repeat match goal with
           | |- context [if ?c then _ else _] => destruct c; [| discriminate]
           end;
    try discriminate;
    intros [= <-]; split; reflexivity.
Qed.

Lemma formatTimeLeft_expired s : s <= 0 -> formatTimeLeft s = "Expired".
Proof. intros H. unfold formatTimeLeft. apply Z.leb_le in H. now rewrite H. Qed.

Lemma time_left_label a now :
  TimeLeft (time_left a now) =
  formatTimeLeft (GoInt.sub (Time (time_left a now)) now).
Proof.
  unfold time_left. destruct (0 <? GoInt.sub (Time a) now) eqn:H; cbn.
  - reflexivity.
  - apply Z.ltb_ge in H. now rewrite formatTimeLeft_expired.
Qed.

Lemma scanned_In clock i js a :
  In a (fst (scan_auctions clock i (map Sql.select_listing js))) ->
  exists j k,
    In j js /\ resolves j a /\ Sql.j_ii j <> None /\
    TimeLeft a = formatTimeLeft (GoInt.sub (Time a) (clock k)).
Proof.
  revert i. induction js as [| j js IH]; intros i; simpl; [tauto |].
  destruct (scan_auction (Sql.select_listing j)) as [err | a0] eqn:Hscan; simpl.
  - intros H. destruct (IH _ H) as [j' [k [Hin H']]]. exists j', k. tauto.
  - intros [<- | H].
    + apply scan_auction_inr in Hscan. destruct Hscan as [Hres [_ Hii]].
      exists j, i. split; [now left |].
      split; [now apply time_left_resolves |].
      split; [exact Hii | apply time_left_label].
    + destruct (IH _ H) as [j' [k [Hin H']]]. exists j', k. tauto.
Qed.

(** ** Order of the listings *)

Lemma sorted_firstn {A : Type} (R : A -> A -> Prop) n l :
  StronglySorted R l -> StronglySorted R (firstn n l).
Proof.
  intros H. revert n. induction H as [| x l Hs IH Hall]; intros [| n]; simpl;
    try constructor.
  - apply IH.
  - apply Forall_forall. intros y Hy. apply In_firstn in Hy.
    rewrite Forall_forall in Hall. now apply Hall.
Qed.

Lemma sorted_skipn {A : Type} (R : A -> A -> Prop) n l :
  StronglySorted R l -> StronglySorted R (skipn n l).
Proof.
  intros H. revert n. induction H as [| x l Hs IH Hall]; intros [| n]; simpl.
  - constructor.
  - constructor.
  - now constructor.
  - apply IH.
Qed.

Lemma scan_auctions_sorted clock i js :
  StronglySorted (fun a b => Sql.time_asc a b = true) js ->
  StronglySorted expires_before
    (fst (scan_auctions clock i (map Sql.select_listing js))).
Proof.
  intros H. revert i. induction H as [| j js Hs IH Hall]; intros i; simpl;
    [constructor |].
  destruct (scan_auction (Sql.select_listing j)) as [err | a0] eqn:Hscan;
    simpl; [apply IH |].
  constructor; [apply IH |].
  apply scan_auction_inr in Hscan. destruct Hscan as [[Hshow _] _].
  apply Forall_forall. intros a' Ha'.
  apply scanned_In in Ha'. destruct Ha' as [j' [k [Hin [[Hshow' _] _]]]].
  rewrite Forall_forall in Hall. specialize (Hall _ Hin).
  unfold Sql.time_asc in Hall. apply Z.leb_le in Hall.
  unfold expires_before, time_left.
  destruct Hshow as (_ & _ & _ & _ & _ & Ht & _).
  destruct Hshow' as (_ & _ & _ & _ & _ & Ht' & _).
  destruct (0 <? _); cbn; lia.
Qed.

(** X1.  The listings of a listing or search response are in order of expiry,
    soonest first. *)
Theorem listings_by_expiry (e : Env) (r : Request) :
  StronglySorted expires_before (auctions_of (fst (handleGetAuctions e r))) /\
  StronglySorted expires_before (auctions_of (fst (handleSearch e r))).
Proof.
  split.
  - rewrite handleGetAuctions_page. cbn zeta. unfold db_Query.
    destruct (env_fault e _); [constructor |].
    unfold Sql.listing_query. destruct ((50 <? 0) || _); [constructor |].
    cbn [fst auctions_of]. apply scan_auctions_sorted.
    rewrite limit_rows_firstn, offset_rows_skipn.
    apply sorted_firstn, sorted_skipn. unfold Sql.listing_rows.
    apply (order_by_sorted _ time_asc_total time_asc_trans).
  - unfold handleSearch. destruct (String.eqb _ ""); [constructor |].
    unfold db_Query. destruct (env_fault e _); [constructor |].
    unfold Sql.search_query. cbn [fst auctions_of]. apply scan_auctions_sorted.
    rewrite limit_rows_firstn. apply sorted_firstn. unfold Sql.search_rows.
    apply (order_by_sorted _ time_asc_total time_asc_trans).
Qed.

(** ** Which rows scan *)

(** The scan of a listing row succeeds exactly when the item instance was
    found and every number fits Go's [int]. *)
Lemma scan_auction_scannable j :
  scannable j = true <-> exists a, scan_auction (Sql.select_listing j) = inr a.
Proof.
  split.
  - intros H. destruct (scan_auction_resolves j H) as [a [Ha _]]. now exists a.
  - intros [a Ha]. revert Ha.
    unfold scan_auction, bind, scan_int, scan_string, Sql.select_listing.
    destruct j as [ah [ii |] [c |] [it |]];
      cbn [Sql.col_ah Sql.col_itemEntry Sql.col_count Sql.col_owner_name
           Sql.col_item_name Sql.col_quality Sql.col_item_level
           Sql.j_ii Sql.j_ah Sql.j_it Sql.j_c option_map Sql.coalesce];
      repeat match goal with
             | |- context [if GoInt.fits ?z then _ else _] =>
                 destruct (GoInt.fits z) eqn:?; [| discriminate]
             end;
      try discriminate;
      intros _; unfold scannable, fits_ah;
      cbn [Sql.j_ii Sql.j_ah Sql.j_it Sql.j_c];
      repeat match goal with
             | Hf : GoInt.fits _ = true |- _ => rewrite Hf; clear Hf
             end;
      reflexivity.
Qed.

(** The row loop returns the rows that scan, resolved and in order, and
    logs one line for each of the others. *)
Lemma scan_auctions_filter clock i js :
  Forall2 resolves (filter scannable js)
    (fst (scan_auctions clock i (map Sql.select_listing js))) /\
  List.length (logged_of (snd (scan_auctions clock i (map Sql.select_listing js)))) =
    List.length (filter (fun j => negb (scannable j)) js).
Proof.
  revert i. induction js as [| j js IH]; intros i; simpl.
  - split; constructor.
  - destruct (IH (S i)) as [IH1 IH2].
    destruct (scannable j) eqn:Hj; simpl.
    + destruct (scan_auction_resolves j Hj) as [a [-> Ha]]. simpl.
      split; [| exact IH2].
      constructor; [now apply time_left_resolves | exact IH1].
    + destruct (scan_auction (Sql.select_listing j)) as [err | a] eqn:Hscan.
      * simpl. split; [exact IH1 | now rewrite IH2].
      * assert (Hyes : scannable j = true)
          by (apply scan_auction_scannable; now exists a).
        congruence.
Qed.

(** ** Pages *)

Lemma page_offset n :
  1 <= n -> 50 * (n - 1) <= GoInt.max_int ->
  GoInt.mul (GoInt.sub n 1) 50 = 50 * (n - 1).
Proof.
  intros Hn Hmax. unfold GoInt.mul, GoInt.sub.
  assert (Hfit : forall z, 0 <= z <= GoInt.max_int -> GoInt.wrap z = z).
  { intros z Hz. apply wrap_fits. unfold GoInt.fits, GoInt.min_int.
    apply andb_true_iff. split; apply Z.leb_le; lia. }
  rewrite (Hfit (n - 1)) by lia. rewrite Hfit by lia. lia.
Qed.

Lemma listing_query_page ties db now n :
  1 <= n ->
  Sql.listing_query 50 (50 * (n - 1)) ties db now =
  Some (map Sql.select_listing (page_rows (Sql.listing_rows ties db now) n)).
Proof.
  intros Hn. unfold Sql.listing_query, page_rows.
  assert (Hoff : (50 * (n - 1) <? 0) = false) by (apply Z.ltb_ge; lia).
  rewrite Hoff. cbn [orb Z.ltb Z.compare].
  now rewrite limit_rows_firstn, offset_rows_skipn.
Qed.

(** X2.  Page [n] of the listing.  Take the live listings in order of
    ascending expiry, rows of equal expiry as the store returns them for
    this statement: a rearrangement of the live rows of the joins, sorted
    by expiry.  The response holds, resolved and in that order, the rows
    [50(n-1)+1 .. 50n] of it that scan, and one line is logged for each
    row of that range that does not. *)
Theorem handleGetAuctions_page_content (e : Env) (r : Request) (n : Z) :
  Strconv.Atoi (Get (URL_Query r) "page") = (n, None) ->
  1 <= n ->
  50 * (n - 1) <= GoInt.max_int ->
  env_fault e (QListing 50 (50 * (n - 1))) = None ->
  exists rows auctions,
    rows =
      Sql.listing_rows (env_ties e 0) (env_db e 0) (env_unix_timestamp e 0) /\
    Permutation (live_rows (env_db e 0) (env_unix_timestamp e 0)) rows /\
    StronglySorted by_expiry rows /\
    fst (handleGetAuctions e r) = JsonAuctions auctions n 50 /\
    Forall2 resolves (filter scannable (page_rows rows n)) auctions /\
    List.length (logged_of (snd (handleGetAuctions e r))) =
      List.length (filter (fun j => negb (scannable j)) (page_rows rows n)).
Proof.
  intros Hparse Hn Hmax Hfault.
  eexists. eexists. split; [reflexivity |].
  split; [apply order_by_perm |]. split; [apply order_by_expiry |].
  rewrite handleGetAuctions_page, Hparse. cbn zeta. cbn [fst].
  assert (Hlt : (n <? 1) = false) by (apply Z.ltb_ge; lia).
  rewrite Hlt, (page_offset n Hn Hmax).
  unfold db_Query. rewrite Hfault, (listing_query_page _ _ _ n Hn).
  cbn [fst snd logged_of flat_map app].
  destruct (scan_auctions_filter (env_time_now e) 0
              (page_rows
                 (Sql.listing_rows (env_ties e 0) (env_db e 0)
                    (env_unix_timestamp e 0)) n)) as [H1 H2].
  split; [reflexivity |]. split; [exact H1 |].
  exact H2.
Qed.

Lemma handleGetAuctions_page_content_witness :
  exists auctions,
    fst (handleGetAuctions market_env (request_with "page" "1")) =
      JsonAuctions auctions 1 50 /\
    List.length auctions = 4%nat.
Proof.
  destruct (handleGetAuctions_page_content market_env
              (request_with "page" "1") 1)
    as [rows [auctions [Hrows [_ [_ [Hresp [Hall _]]]]]]];
    try reflexivity; try (unfold GoInt.max_int; lia).
  subst rows. exists auctions. split; [exact Hresp |].
  apply Forall2_length in Hall. rewrite <- Hall. reflexivity.
Defined.

(** X3.  A page past the end of the live listings is answered with status 200
    and an empty list; nothing is logged. *)
Theorem handleGetAuctions_past_end (e : Env) (r : Request) (n : Z) :
  Strconv.Atoi (Get (URL_Query r) "page") = (n, None) ->
  1 <= n ->
  50 * (n - 1) <= GoInt.max_int ->
  env_fault e (QListing 50 (50 * (n - 1))) = None ->
  Z.of_nat
    (List.length
       (Sql.listing_rows (env_ties e 0) (env_db e 0) (env_unix_timestamp e 0)))
    <= 50 * (n - 1) ->
  handleGetAuctions e r =
    (JsonAuctions [] n 50, [Queried (QListing 50 (50 * (n - 1)))]).
Proof.
  intros Hparse Hn Hmax Hfault Hend.
  rewrite handleGetAuctions_page, Hparse. cbn zeta. cbn [fst].
  assert (Hlt : (n <? 1) = false) by (apply Z.ltb_ge; lia).
  rewrite Hlt, (page_offset n Hn Hmax).
  unfold db_Query. rewrite Hfault, (listing_query_page _ _ _ n Hn).
  unfold page_rows. rewrite skipn_all2 by lia. reflexivity.
Qed.

Lemma handleGetAuctions_past_end_witness :
  handleGetAuctions market_env (request_with "page" "2") =
    (JsonAuctions [] 2 50, [Queried (QListing 50 50)]).
Proof.
  apply (handleGetAuctions_past_end market_env (request_with "page" "2") 2);
    try reflexivity; try (unfold GoInt.max_int; lia).
  vm_compute. discriminate.
Defined.

(** ** Counting *)

Lemma filter_length_le {A : Type} (p : A -> bool) l :
  (List.length (filter p l) <= List.length l)%nat.
Proof.
  induction l as [| x l IH]; simpl; [lia |]. destruct (p x); simpl; lia.
Qed.

Lemma filter_length_mono {A : Type} (p q : A -> bool) l :
  (forall x, p x = true -> q x = true) ->
  (List.length (filter p l) <= List.length (filter q l))%nat.
Proof.
  intros Hpq. induction l as [| x l IH]; simpl; [lia |].
  destruct (p x) eqn:Hp.
  - rewrite (Hpq x Hp). simpl. lia.
  - destruct (q x); simpl; lia.
Qed.

Lemma distinct_length_le {A : Type} (eqb : A -> A -> bool) l :
  (List.length (Sql.distinct eqb l) <= List.length l)%nat.
Proof.
  induction l as [| x l IH]; simpl; [lia |].
  pose proof (filter_length_le (fun y => negb (eqb x y)) (Sql.distinct eqb l)).
  lia.
Qed.

Lemma non_null_length_le {A : Type} (l : list (option A)) :
  (List.length (Sql.non_null l) <= List.length l)%nat.
Proof.
  unfold Sql.non_null. induction l as [| [x |] l IH]; simpl; lia.
Qed.

Lemma count_distinct_bounds l :
  0 <= Sql.count_distinct l <= Z.of_nat (List.length l).
Proof.
  unfold Sql.count_distinct.
  pose proof (distinct_length_le Z.eqb (Sql.non_null l)).
  pose proof (non_null_length_le l). lia.
Qed.

Lemma left_join_length_ge {A B C : Type} (on : A -> B -> bool)
    (mk : A -> option B -> C) l r :
  (List.length l <= List.length (Sql.left_join on mk l r))%nat.
Proof.
  unfold Sql.left_join. induction l as [| a l IH]; [simpl; lia |].
  cbn [flat_map]. rewrite length_app.
  set (rest := flat_map _ l) in *.
  destruct (filter (on a) r); cbn [List.length map]; lia.
Qed.

(** ** Statistics *)

Lemma primary_stats_columns e stats :
  db_QueryRow e 0 QStats Sql.stats_query scan_stats = inr stats ->
  UniqueOwners stats =
    Sql.count_distinct
      (map (fun x => Some (Sql.ah_itemowner (fst x)))
         (Sql.stats_rows (env_db e 0) (env_unix_timestamp e 0))) /\
  UniqueItems stats =
    Sql.count_distinct
      (map (fun x => option_map Sql.ii_itemEntry (snd x))
         (Sql.stats_rows (env_db e 0) (env_unix_timestamp e 0))).
Proof.
  unfold db_QueryRow, db_Query, bind.
  destruct (env_fault e QStats); [discriminate |]. cbn.
  unfold scan_stats, bind, scan_int. cbn.
  destruct (Sql.sum _) as [v |]; [| destruct (GoInt.fits _); discriminate].
  repeat match goal with
         | |- context [if ?c then _ else _] => destruct c; [| discriminate]
         end.
  intros [= <-]. split; reflexivity.
Qed.

Lemma bid_count e n :
  db_QueryRow e 1 QBidCount Sql.bid_query (scan_int 0) = inr n ->
  n = Z.of_nat (List.length (Sql.bid_rows (env_db e 1) (env_unix_timestamp e 1))).
Proof.
  unfold db_QueryRow, db_Query, bind.
  destruct (env_fault e QBidCount); [discriminate |]. cbn.
  unfold scan_int. destruct (GoInt.fits _); [| discriminate].
  now intros [= <-].
Qed.

Lemma bid_rows_le db db' t0 t1 :
  Sql.auctionhouse db = Sql.auctionhouse db' ->
  t0 <= t1 ->
  (List.length (Sql.bid_rows db' t1) <= List.length (Sql.stats_rows db t0))%nat.
Proof.
  intros Hsame Ht. rewrite stats_rows_live.
  pose proof (left_join_length_ge
                (fun ah ii => Sql.ah_itemguid ah =? Sql.ii_guid ii) pair
                (filter (Sql.live t0) (Sql.auctionhouse db))
                (Sql.item_instance db)) as Hjoin.
  assert (Hmono : (List.length (Sql.bid_rows db' t1) <=
                   List.length (filter (Sql.live t0) (Sql.auctionhouse db)))%nat).
  { unfold Sql.bid_rows. rewrite <- Hsame.
    apply filter_length_mono. intros ah H.
    apply andb_true_iff in H. destruct H as [_ H]. unfold Sql.live in *.
    apply Z.ltb_lt in H. apply Z.ltb_lt. lia. }
  lia.
Qed.

(** X9.  A statistics object is only returned when at least one listing is
    live; its counts of distinct owners and distinct items lie between 0
    and the total; and the count of active bids, which a second statement
    reads, does not exceed the total when the auction table was the same
    for the two statements and the store's clock did not run backwards
    between them. *)
Theorem handleGetStats_bounds (e : Env) (r : Request)
    (stats : AuctionHouseStats) :
  fst (handleGetStats e r) = JsonStats stats ->
  1 <= TotalItems stats /\
  0 <= UniqueOwners stats <= TotalItems stats /\
  0 <= UniqueItems stats <= TotalItems stats /\
  0 <= ActiveBids stats /\
  (Sql.auctionhouse (env_db e 0) = Sql.auctionhouse (env_db e 1) ->
   env_unix_timestamp e 0 <= env_unix_timestamp e 1 ->
   ActiveBids stats <= TotalItems stats).
Proof.
  unfold handleGetStats.
  destruct (db_QueryRow e 0 QStats Sql.stats_query scan_stats)
    as [err | s] eqn:Hprimary; [discriminate |].
  destruct (primary_stats e s Hprimary) as [_ [Hzero [Hcount Hsum]]].
  destruct (primary_stats_columns e s Hprimary) as [Howners Hitems].
  set (rows := Sql.stats_rows (env_db e 0) (env_unix_timestamp e 0)) in *.
  assert (Hpos : 1 <= TotalItems s).
  { rewrite Hcount. destruct rows; [discriminate | simpl; lia]. }
  pose proof (count_distinct_bounds
                (map (fun x => Some (Sql.ah_itemowner (fst x))) rows)) as Ho.
  pose proof (count_distinct_bounds
                (map (fun x => option_map Sql.ii_itemEntry (snd x)) rows)) as Hi.
  rewrite length_map in Ho, Hi.
  destruct (db_QueryRow e 1 QBidCount Sql.bid_query (scan_int 0))
    as [err | n] eqn:Hbids; cbn [fst]; intros [= <-].
  - rewrite Hzero, Howners, Hitems, Hcount. repeat split; try lia.
  - cbn [with_ActiveBids TotalItems UniqueOwners UniqueItems ActiveBids].
    apply bid_count in Hbids.
    rewrite Howners, Hitems, Hcount, Hbids. repeat split; try lia.
    intros Hsame Ht.
    pose proof (bid_rows_le _ _ _ _ Hsame Ht) as H. fold rows in H. lia.
Qed.

Lemma handleGetStats_bounds_witness :
  1 <= TotalItems (mkAuctionHouseStats 4 16370 0 3 2) /\
  0 <= UniqueOwners (mkAuctionHouseStats 4 16370 0 3 2) <= 4 /\
  ActiveBids (mkAuctionHouseStats 4 16370 0 3 2) <= 4.
Proof.
  destruct (handleGetStats_bounds market_env (mkRequest [])
              (mkAuctionHouseStats 4 16370 0 3 2) eq_refl)
    as [H1 [H2 [_ [_ H5]]]].
  split; [exact H1 | split; [exact H2 |]].
  apply H5; [reflexivity | cbn; lia].
Defined.

(** The two statements of the statistics handler are not one
    transaction: when listings with bids are added between them, the
    response reports more active bids than listings. *)
Lemma handleGetStats_bids_over_total :
  fst (handleGetStats busy_env (mkRequest [])) =
    JsonStats (mkAuctionHouseStats 1 15000 2 1 1).
Proof. vm_compute. reflexivity. Qed.

(** A key finds at most one partner. *)
Lemma unique_partner (k : Z) (iis : list Sql.item_instance_row) :
  NoDup (map Sql.ii_guid iis) ->
  (List.length (filter (fun ii => Z.eqb k (Sql.ii_guid ii)) iis) <= 1)%nat.
Proof.
  induction iis as [| ii iis IH]; simpl; intros Hnd; [lia |].
  inversion Hnd as [| g gs Hnotin Hnd']; subst.
  destruct (Z.eqb_spec k (Sql.ii_guid ii)) as [-> | Hne]; simpl.
  - rewrite filter_none; [simpl; lia |].
    intros x Hx. apply Z.eqb_neq. intros Heq. apply Hnotin.
    rewrite Heq. now apply in_map.
  - now apply IH.
Qed.

Lemma left_join_unique {A B : Type} (on : A -> B -> bool) l r :
  (forall a, (List.length (filter (on a) r) <= 1)%nat) ->
  map fst (Sql.left_join on pair l r) = l.
Proof.
  intros Hone. unfold Sql.left_join.
  induction l as [| a l IH]; [reflexivity |].
  cbn [flat_map]. rewrite map_app, IH. specialize (Hone a).
  destruct (filter (on a) r) as [| b [| b' ms]]; simpl in *;
    [reflexivity | reflexivity | lia].
Qed.

(** X10.  When [guid] is a key of [item_instance], the total of the statistics
    is the number of live rows of the auction table, and the value is the
    sum of their buyout prices. *)
Theorem handleGetStats_totals (e : Env) (r : Request)
    (stats : AuctionHouseStats) :
  unique_item_guids (env_db e 0) ->
  fst (handleGetStats e r) = JsonStats stats ->
  TotalItems stats =
    Z.of_nat (List.length (live_listings (env_db e 0) (env_unix_timestamp e 0))) /\
  TotalValue stats =
    total (map Sql.ah_buyoutprice
             (live_listings (env_db e 0) (env_unix_timestamp e 0))).
Proof.
  intros Hkey. unfold handleGetStats.
  destruct (db_QueryRow e 0 QStats Sql.stats_query scan_stats)
    as [err | s] eqn:Hprimary; [discriminate |].
  destruct (primary_stats e s Hprimary) as [_ [_ [Hcount Hsum]]].
  assert (Hrows : map fst (Sql.stats_rows (env_db e 0) (env_unix_timestamp e 0)) =
                  live_listings (env_db e 0) (env_unix_timestamp e 0)).
  { rewrite stats_rows_live. apply left_join_unique.
    intros ah. now apply unique_partner. }
  assert (Hs : TotalItems s =
               Z.of_nat (List.length
                           (live_listings (env_db e 0) (env_unix_timestamp e 0))) /\
               TotalValue s =
               total (map Sql.ah_buyoutprice
                        (live_listings (env_db e 0) (env_unix_timestamp e 0)))).
  { rewrite <- Hrows, length_map, map_map. split; [exact Hcount |].
    unfold Sql.sum in Hsum. unfold total.
    destruct (map (fun x => Sql.ah_buyoutprice (fst x)) _);
      [discriminate | now injection Hsum as <-]. }
  destruct (db_QueryRow e 1 QBidCount Sql.bid_query (scan_int 0));
    cbn [fst]; intros [= <-]; exact Hs.
Qed.

Lemma handleGetStats_totals_witness :
  TotalItems (mkAuctionHouseStats 4 16370 0 3 2) =
    Z.of_nat (List.length (live_listings market_db 1000)) /\
  TotalValue (mkAuctionHouseStats 4 16370 0 3 2) =
    total (map Sql.ah_buyoutprice (live_listings market_db 1000)).
Proof.
  apply (handleGetStats_totals market_env (mkRequest [])).
  - unfold unique_item_guids. cbn.
    repeat constructor; cbn; intuition discriminate.
  - reflexivity.
Defined.

(** ** Failures of the store *)

Lemma handleGetAuctions_one_query e r :
  exists offset,
    queries_of (snd (handleGetAuctions e r)) = [QListing 50 offset] /\
    GoInt.fits offset = true.
Proof.
  rewrite handleGetAuctions_page. cbn zeta.
  eexists. split; [| apply fits_wrap].
  destruct (db_Query e 0 _ _) as [err | rows]; cbn [snd]; [reflexivity |].
  cbn [queries_of flat_map app].
  fold (queries_of (snd (scan_auctions (env_time_now e) 0 rows))).
  now rewrite scan_auctions_no_query.
Qed.

(** X11.  When the store fails the statement a handler sends first, the handler
    answers with status 500 and the driver's message, sends nothing else
    and returns no data. *)
Theorem store_failure (e : Env) (r : Request) (q : Query) (msg : string) :
  env_fault e q = Some msg ->
  (queries_of (snd (handleGetAuctions e r)) = [q] ->
   handleGetAuctions e r =
     (HttpError (ErrorOf (DriverError msg)) 500, [Queried q])) /\
  (q = QStats ->
   handleGetStats e r =
     (HttpError (ErrorOf (DriverError msg)) 500, [Queried q])) /\
  (Get (URL_Query r) "q" <> "" ->
   queries_of (snd (handleSearch e r)) = [q] ->
   handleSearch e r =
     (HttpError (ErrorOf (DriverError msg)) 500, [Queried q])) /\
  (q = QSellers ->
   handleGetSellers e r =
     (HttpError (ErrorOf (DriverError msg)) 500, [Queried q])).
Proof.
  intros Hfault. repeat split.
  - rewrite handleGetAuctions_page. cbn zeta. unfold db_Query.
    destruct (env_fault e (QListing 50 _)) as [m |] eqn:Hf.
    + cbn [snd queries_of flat_map app]. intros [= <-].
      rewrite Hfault in Hf. now injection Hf as <-.
    + destruct (Sql.listing_query 50 _ _ _ _) as [rows |];
        cbn [snd queries_of flat_map app]; intros [= <-]; congruence.
  - intros ->. unfold handleGetStats, db_QueryRow, db_Query, bind.
    now rewrite Hfault.
  - intros Hne. unfold handleSearch. apply String.eqb_neq in Hne. rewrite Hne.
    unfold db_Query.
    destruct (env_fault e (QSearch _ _)) as [m |] eqn:Hf.
    + cbn [snd queries_of flat_map app]. intros [= <-].
      assert (Hm : Some m = Some msg) by (rewrite <- Hf; exact Hfault).
      now injection Hm as ->.
    + cbn [Sql.search_query snd queries_of flat_map app]. intros [= <-].
      assert (Hm : None = Some msg) by (rewrite <- Hf; exact Hfault).
      discriminate.
  - intros ->. unfold handleGetSellers, db_Query. now rewrite Hfault.
Qed.

Lemma store_failure_witness :
  handleGetStats (still_env sample_db (fun _ => Some "gone") 0)
    (mkRequest []) =
  (HttpError (ErrorOf (DriverError "gone")) 500, [Queried QStats]).
Proof.
  apply (store_failure
           (still_env sample_db (fun _ => Some "gone") 0)
           (mkRequest []) QStats "gone"); reflexivity.
Defined.

(** ** Search *)

(** X12.  Whatever the term, every listing a search returns is a row of the
    listing query, and at least one of its two names was found by the
    joins: a listing with neither a template nor an owner's character is
    never found. *)
Theorem handleSearch_found (e : Env) (r : Request) (a : AuctionItem) :
  In a (auctions_of (fst (handleSearch e r))) ->
  exists j,
    In j (Sql.listing_rows (env_ties e 0) (env_db e 0)
            (env_unix_timestamp e 0)) /\
    resolves j a /\
    (Sql.j_it j <> None \/ Sql.j_c j <> None).
Proof.
  unfold handleSearch. destruct (String.eqb _ ""); [intros [] |].
  unfold db_Query. destruct (env_fault e _); [intros [] |].
  unfold Sql.search_query. cbn [fst auctions_of]. intros Ha.
  apply scanned_In in Ha. destruct Ha as [j [k [Hj [Hres _]]]].
  exists j. rewrite limit_rows_firstn in Hj. apply In_firstn in Hj.
  unfold Sql.search_rows in Hj. apply In_order_by, filter_In in Hj.
  destruct Hj as [Hin Hcond]. apply andb_true_iff in Hcond.
  destruct Hcond as [Hlive Hmatch].
  split; [| split; [exact Hres |]].
  - unfold Sql.listing_rows. apply In_order_by, filter_In. now split.
  - unfold Sql.search_condition in Hmatch.
    destruct (Sql.j_it j), (Sql.j_c j); cbn in Hmatch;
      [left | left | right | exfalso]; discriminate.
Qed.

Lemma handleSearch_found_witness :
  exists j,
    In j (Sql.listing_rows (fun i => i) market_db 1000) /\
    (Sql.j_it j <> None \/ Sql.j_c j <> None).
Proof.
  destruct (handleSearch_found market_env (request_with "q" "thr")
              (mkAuctionItem 1 7 100 5 15000 2000 0 0 10000 50 25
                 "Worn Shortsword" "Thrall" 1 1 2 "16m"))
    as [j [Hin [_ Hname]]].
  - left. reflexivity.
  - exists j. split; [exact Hin | exact Hname].
Defined.

(** ** Sums over the seller roll-up *)

Lemma total_app l1 l2 : total (l1 ++ l2) = total l1 + total l2.
Proof. unfold total. induction l1 as [| x l1 IH]; simpl; lia. Qed.

Lemma total_map_add {A : Type} (f g : A -> Z) l :
  total (map (fun x => f x + g x) l) = total (map f l) + total (map g l).
Proof. unfold total. induction l as [| x l IH]; simpl; lia. Qed.

(** Sorting does not change a sum. *)
Lemma total_perm l l' : Permutation l l' -> total l = total l'.
Proof.
  unfold total. induction 1; simpl; lia.
Qed.

Lemma total_order_by {A : Type} (le : A -> A -> bool) ties (f : A -> Z) l :
  total (map f (Sql.order_by le ties l)) = total (map f l).
Proof.
  symmetry. apply total_perm, Permutation_map, order_by_perm.
Qed.

Section Groups.

Context {A K : Type}.
Variable eqb : K -> K -> bool.
Variable key : A -> K.
Hypothesis eqb_eq : forall a b, eqb a b = true <-> a = b.

Lemma indicator_absent y ks :
  ~ In y ks -> total (map (fun k => if eqb k y then 1 else 0) ks) = 0.
Proof.
  unfold total. induction ks as [| k ks IH]; simpl; intros Hnot; [reflexivity |].
  destruct (eqb k y) eqn:Hk.
  - apply eqb_eq in Hk. subst. exfalso. apply Hnot. now left.
  - rewrite IH; [reflexivity |]. intros Hin. apply Hnot. now right.
Qed.

Lemma indicator_once y ks :
  NoDup ks -> In y ks ->
  total (map (fun k => if eqb k y then 1 else 0) ks) = 1.
Proof.
  intros Hnd. induction Hnd as [| k ks Hnotin Hnd IH]; intros Hin;
    [destruct Hin |].
  change (total (map (fun k0 => if eqb k0 y then 1 else 0) (k :: ks)))
    with ((if eqb k y then 1 else 0) +
          total (map (fun k0 => if eqb k0 y then 1 else 0) ks)).
  destruct (eqb k y) eqn:Hk.
  - apply eqb_eq in Hk. subst. now rewrite indicator_absent.
  - destruct Hin as [-> | Hin].
    + assert (Hyy : eqb y y = true) by now apply eqb_eq. congruence.
    + now rewrite IH.
Qed.

(** The groups of distinct keys that cover a list partition it. *)
Lemma groups_partition ks l :
  NoDup ks ->
  (forall x, In x l -> In (key x) ks) ->
  total (map (fun k =>
                Z.of_nat (List.length (filter (fun x => eqb k (key x)) l))) ks) =
  Z.of_nat (List.length l).
Proof.
  intros Hnd. induction l as [| x l IH]; intros Hcover.
  - cbn [filter List.length]. unfold total.
    clear. induction ks as [| k ks IH]; simpl; [reflexivity | exact IH].
  - rewrite (map_ext _
               (fun k => (if eqb k (key x) then 1 else 0) +
                         Z.of_nat (List.length
                                     (filter (fun y => eqb k (key y)) l)))).
    + rewrite total_map_add, IH, indicator_once.
      * cbn [List.length]. lia.
      * exact Hnd.
      * apply Hcover. now left.
      * intros y Hy. apply Hcover. now right.
    + intros k. cbn [filter]. destruct (eqb k (key x)); cbn [List.length]; lia.
Qed.

End Groups.

(** The listing counts of the roll-up rows add up to the number of live
    joined rows whose owner's character was found. *)
Lemma sellers_query_total ties db now rows :
  Sql.sellers_query ties db now = Some rows ->
  total (map auctions_column rows) =
  Z.of_nat (List.length (Sql.seller_rows db now)).
Proof.
  unfold Sql.sellers_query. intros [= <-].
  rewrite total_order_by, map_map.
  unfold auctions_column, Sql.aggregate_group, Sql.group_of.
  cbn [Sql.col_total_auctions].
  apply (groups_partition Sql.key_eqb Sql.group_key key_eqb_eq).
  - apply distinct_NoDup, key_eqb_eq.
  - intros j Hj. apply distinct_complete; [apply key_eqb_eq |].
    now apply in_map.
Qed.

Lemma scan_sellers_nothing_logged rows :
  logged_of (snd (scan_sellers rows)) = [] ->
  Forall2 (fun row s => scan_seller row = inr s) rows (fst (scan_sellers rows)).
Proof.
  induction rows as [| row rows IH]; simpl; [constructor |].
  destruct (scan_seller row) as [err | s] eqn:Hscan; simpl; [discriminate |].
  intros H. constructor; [exact Hscan | now apply IH].
Qed.

Lemma scanned_total rows sellers :
  Forall2 (fun row s => scan_seller row = inr s) rows sellers ->
  total (map TotalAuctions sellers) = total (map auctions_column rows).
Proof.
  induction 1 as [| row s rows sellers Hscan _ IH]; [reflexivity |].
  cbn [map]. unfold total in *. cbn [fold_right]. rewrite IH.
  apply scan_seller_columns in Hscan. destruct Hscan as (_ & Hn & _).
  unfold auctions_column. now rewrite Hn.
Qed.

(** X14.  When no row of the roll-up was skipped, the listing counts of the
    sellers add up to the number of live joined rows whose owner's
    character was found: each such listing is counted once. *)
Theorem handleGetSellers_total (e : Env) (r : Request) (sellers : list Seller) :
  fst (handleGetSellers e r) = JsonSellers sellers ->
  logged_of (snd (handleGetSellers e r)) = [] ->
  total (map TotalAuctions sellers) =
  Z.of_nat (List.length (Sql.seller_rows (env_db e 0) (env_unix_timestamp e 0))).
Proof.
  unfold handleGetSellers, db_Query.
  destruct (env_fault e QSellers); [discriminate |].
  destruct (Sql.sellers_query _ _ _) as [rows |] eqn:Hq; [| discriminate].
  cbn [fst snd logged_of flat_map app]. intros [= <-] Hlog.
  rewrite <- (sellers_query_total _ _ _ _ Hq).
  apply scanned_total. now apply scan_sellers_nothing_logged.
Qed.

Lemma handleGetSellers_total_witness :
  total (map TotalAuctions
           [mkSeller "Jaina" 2 1300 2; mkSeller "Thrall" 1 15000 1]) =
  Z.of_nat (List.length (Sql.seller_rows market_db 1000)).
Proof.
  apply (handleGetSellers_total market_env (mkRequest [])); reflexivity.
Defined.

(** X15.  Every seller in the list has at least one listing, and the number of
    distinct items lies between 0 and the number of listings. *)
Theorem handleGetSellers_entry_bounds (e : Env) (r : Request) (s : Seller) :
  (exists sellers,
     fst (handleGetSellers e r) = JsonSellers sellers /\ In s sellers) ->
  1 <= TotalAuctions s /\
  0 <= SellerUniqueItems s <= TotalAuctions s.
Proof.
  intros [sellers [Hresp Hs]]. revert Hresp Hs.
  unfold handleGetSellers, db_Query.
  destruct (env_fault e QSellers); [discriminate |].
  destruct (Sql.sellers_query _ _ _) as [rows |] eqn:Hq; [| discriminate].
  cbn [fst]. intros [= <-] Hs.
  apply scan_sellers_In in Hs. destruct Hs as [row [Hrow Hscan]].
  destruct (sellers_query_row _ _ _ _ _ Hq Hrow) as [owner [name [Hne ->]]].
  apply scan_seller_columns in Hscan.
  destruct Hscan as (_ & Hcount & _ & Hitems).
  unfold Sql.aggregate_group in Hcount, Hitems.
  cbn [Sql.col_total_auctions Sql.col_seller_unique_items] in Hcount, Hitems.
  rewrite group_of_listings in Hcount, Hitems.
  injection Hcount as Hcount. injection Hitems as Hitems.
  pose proof (count_distinct_bounds
                (map (fun j => option_map Sql.ii_itemEntry (Sql.sj_ii j))
                   (listings_of (env_db e 0) (env_unix_timestamp e 0) owner name)))
    as Hb.
  rewrite length_map in Hb.
  destruct (listings_of (env_db e 0) (env_unix_timestamp e 0) owner name)
    as [| j g]; [contradiction |].
  cbn [List.length] in *. lia.
Qed.

Lemma handleGetSellers_entry_bounds_witness :
  1 <= TotalAuctions (mkSeller "Jaina" 2 1300 2) /\
  0 <= SellerUniqueItems (mkSeller "Jaina" 2 1300 2) <= 2.
Proof.
  apply (handleGetSellers_entry_bounds market_env (mkRequest [])).
  eexists. split; [reflexivity | left; reflexivity].
Defined.

(** ** Decimal numerals *)

Lemma uint_value_pos l acc :
  uint_value l (Z.pos acc) = Z.pos (Pos.of_uint_acc l acc).
Proof.
  revert acc. induction l; intros acc; cbn [uint_value Pos.of_uint_acc];
    [reflexivity | rewrite <- IHl; f_equal; lia ..].
Qed.

Lemma uint_value_zero l : uint_value l 0 = Z.of_N (Pos.of_uint l).
Proof.
  induction l; cbn [uint_value Pos.of_uint Z.mul Z.add Z.of_N];
    [reflexivity | exact IHl | apply uint_value_pos ..].
Qed.

Lemma digits_string_of_uint l acc :
  Strconv.digits acc (NilEmpty.string_of_uint l) = Some (uint_value l acc).
Proof.
  revert acc. induction l; intros acc;
    cbn [NilEmpty.string_of_uint Strconv.digits uint_value];
    [reflexivity | apply IHl ..].
Qed.

(** The numeral of a positive number: digits only, the first of them
    included, and read back they give the number. *)
Lemma numeral_pos p :
  exists c rest,
    NilZero.string_of_uint (Pos.to_uint p) = String c rest /\
    is_digit c = true /\
    forallb is_digit (list_ascii_of_string rest) = true /\
    Strconv.digits 0 (String c rest) = Some (Z.pos p).
Proof.
  assert (Hall : forall l,
             forallb is_digit (list_ascii_of_string (NilEmpty.string_of_uint l))
             = true).
  { induction l; cbn; auto. }
  pose proof (Unsigned.to_uint_nonnil p) as Hnil.
  pose proof (Unsigned.of_to p) as Hback.
  assert (Hval : Strconv.digits 0 (NilEmpty.string_of_uint (Pos.to_uint p)) =
                 Some (Z.pos p)).
  { rewrite digits_string_of_uint, uint_value_zero, Hback. reflexivity. }
  specialize (Hall (Pos.to_uint p)).
  destruct (Pos.to_uint p) as [| l | l | l | l | l | l | l | l | l | l];
    [contradiction | ..];
    cbn [NilZero.string_of_uint NilEmpty.string_of_uint] in *;
    eexists; eexists; (split; [reflexivity |]); (split; [reflexivity |]);
    (split; [| exact Hval]);
    cbn [list_ascii_of_string forallb] in Hall;
    apply andb_true_iff in Hall; apply Hall.
Qed.

(** The numeral of a number that is not negative starts with a digit. *)
Lemma itoa_first_digit n :
  0 <= n ->
  exists c rest,
    GoInt.itoa n = String c rest /\ is_digit c = true /\
    forallb is_digit (list_ascii_of_string rest) = true.
Proof.
  intros Hn. unfold GoInt.itoa. destruct n as [| p | p]; [| | lia].
  - exists "0"%char, "". repeat split.
  - destruct (numeral_pos p) as [c [rest [Hs [Hc [Hrest _]]]]].
    exists c, rest. cbn [Z.to_int NilZero.string_of_int]. auto.
Qed.

Lemma digit_range c d : Strconv.digit c = Some d -> 0 <= d <= 9.
Proof.
  unfold Strconv.digit.
  destruct (Z.leb_spec 48 (Z.of_nat (nat_of_ascii c)));
    destruct (Z.leb_spec (Z.of_nat (nat_of_ascii c)) 57); cbn;
    intros [= <-]; lia.
Qed.

Lemma digits_ge s : forall n v,
  Strconv.digits n s = Some v -> 0 <= n -> n <= v.
Proof.
  induction s as [| c s IH]; intros n v; simpl.
  - intros [= <-] _. lia.
  - destruct (Strconv.digit c) as [d |] eqn:Hd; [| discriminate].
    intros Hv Hn. apply digit_range in Hd.
    specialize (IH _ _ Hv). lia.
Qed.

(** On digits whose value stays within 64 bits, the loop of ParseUint
    computes what the fast path computes. *)
Lemma uint_loop_digits s : forall n v,
  Strconv.digits n s = Some v -> 0 <= n -> v <= Strconv.maxUint64 ->
  Strconv.uint_loop n s = (v, None).
Proof.
  induction s as [| c s IH]; intros n v; simpl.
  - now intros [= <-] _ _.
  - destruct (Strconv.digit c) as [d |] eqn:Hd; [| discriminate].
    intros Hv Hn Hmax. pose proof (digit_range _ _ Hd) as Hr.
    pose proof (digits_ge _ _ _ Hv ltac:(lia)) as Hge.
    unfold Strconv.cutoff, Strconv.maxUint64 in *.
    destruct (Z.leb_spec (((2 ^ 64 - 1) / 10) + 1) n) as [Hc | Hc].
    + exfalso. change ((2 ^ 64 - 1) / 10 + 1) with 1844674407370955162 in Hc.
      change (2 ^ 64 - 1) with 18446744073709551615 in Hmax. lia.
    + destruct (Z.ltb_spec (2 ^ 64 - 1) (n * 10 + d)) as [Ho | Ho]; [lia |].
      apply IH; [exact Hv | lia | exact Hmax].
Qed.

(** Reading back what [%d] printed gives the number. *)
Lemma Atoi_itoa n :
  GoInt.fits n = true -> Strconv.Atoi (GoInt.itoa n) = (n, None).
Proof.
  intros Hfit. unfold GoInt.fits, GoInt.min_int, GoInt.max_int in Hfit.
  apply andb_true_iff in Hfit. destruct Hfit as [Hl Hu].
  apply Z.leb_le in Hl. apply Z.leb_le in Hu.
  change (2 ^ 63) with 9223372036854775808 in Hl, Hu.
  unfold GoInt.itoa. destruct n as [| p | p].
  - reflexivity.
  - cbn [Z.to_int NilZero.string_of_int].
    destruct (numeral_pos p) as [c [rest [-> [Hc [_ Hval]]]]].
    assert (Hsign : Ascii.eqb c "-" = false /\ Ascii.eqb c "+" = false).
    { split; destruct (Ascii.eqb_spec c "-"), (Ascii.eqb_spec c "+");
        subst; try reflexivity; discriminate. }
    destruct Hsign as [Hm Hp].
    unfold Strconv.Atoi. destruct ((0 <? _) && _).
    + unfold Strconv.fast. rewrite Hm, Hp. cbn [orb].
      unfold Strconv.unsigned. now rewrite Hval.
    + unfold Strconv.ParseInt. rewrite Hm, Hp. cbn [orb negb andb].
      unfold Strconv.ParseUint.
      rewrite (uint_loop_digits _ _ _ Hval);
        [| lia | unfold Strconv.maxUint64; lia].
      destruct (Z.leb_spec (2 ^ 63) (Z.pos p)) as [Hbig | _];
        [change (2 ^ 63) with 9223372036854775808 in Hbig; lia | reflexivity].
  - cbn [Z.to_int NilZero.string_of_int].
    destruct (numeral_pos p) as [c [rest [-> [Hc [_ Hval]]]]].
    unfold Strconv.Atoi. destruct ((0 <? _) && _).
    + unfold Strconv.fast. cbn [Ascii.eqb Bool.eqb orb].
      unfold Strconv.unsigned. now rewrite Hval.
    + unfold Strconv.ParseInt. cbn [Ascii.eqb Bool.eqb orb negb andb].
      unfold Strconv.ParseUint.
      rewrite (uint_loop_digits _ _ _ Hval);
        [| lia | unfold Strconv.maxUint64; lia].
      destruct (Z.ltb_spec (2 ^ 63) (Z.pos p)) as [Hbig | _];
        [change (2 ^ 63) with 9223372036854775808 in Hbig; lia | reflexivity].
Qed.

(** X5.  The page a client asks for by its decimal numeral is the page the
    handler serves and reports, for every page number from 1 to the
    largest [int]. *)
Theorem handleGetAuctions_page_echo (e : Env) (n : Z) :
  1 <= n <= GoInt.max_int ->
  queries_of (snd (handleGetAuctions e (request_with "page" (GoInt.itoa n)))) =
    [QListing 50 (GoInt.mul (GoInt.sub n 1) 50)] /\
  forall auctions page limit,
    fst (handleGetAuctions e (request_with "page" (GoInt.itoa n))) =
      JsonAuctions auctions page limit ->
    page = n /\ limit = 50.
Proof.
  intros Hn. rewrite handleGetAuctions_page.
  change (Get (URL_Query (request_with "page" (GoInt.itoa n))) "page")
    with (GoInt.itoa n).
  rewrite Atoi_itoa.
  - cbn zeta. cbn [fst].
    assert (Hlt : (n <? 1) = false) by (apply Z.ltb_ge; lia).
    rewrite Hlt.
    destruct (db_Query e 0 _ _) as [err | rows]; cbn [fst snd].
    + split; [reflexivity | discriminate].
    + split.
      * cbn [queries_of flat_map app].
        fold (queries_of (snd (scan_auctions (env_time_now e) 0 rows))).
        now rewrite scan_auctions_no_query.
      * intros auctions page limit [= _ <- <-]. split; reflexivity.
  - unfold GoInt.fits, GoInt.min_int, GoInt.max_int in *.
    apply andb_true_iff. split; apply Z.leb_le; lia.
Qed.

Lemma handleGetAuctions_page_echo_witness :
  queries_of
    (snd (handleGetAuctions sample_env (request_with "page" (GoInt.itoa 7)))) =
  [QListing 50 300].
Proof.
  apply (handleGetAuctions_page_echo sample_env 7).
  unfold GoInt.max_int. lia.
Defined.

(** ** The time-left label *)

Lemma digit_not_E c rest suffix :
  is_digit c = true -> (String c rest ++ suffix)%string <> "Expired".
Proof.
  intros Hc H. cbn [append] in H. injection H as -> _. discriminate.
Qed.

Lemma formatTimeLeft_live s : 0 < s -> formatTimeLeft s <> "Expired".
Proof.
  intros Hs. unfold formatTimeLeft.
  assert (Hle : (s <=? 0) = false) by (apply Z.leb_gt; lia). rewrite Hle.
  assert (Hd : 0 <= Z.quot s 86400) by (Z.quot_rem_to_equations; lia).
  assert (Hh : 0 <= Z.quot (Z.rem s 86400) 3600)
    by (Z.quot_rem_to_equations; lia).
  assert (Hm : 0 <= Z.quot (Z.rem s 3600) 60)
    by (Z.quot_rem_to_equations; lia).
  cbv zeta.
  destruct (itoa_first_digit _ Hd) as [c1 [r1 [-> [H1 _]]]].
  destruct (itoa_first_digit _ Hh) as [c2 [r2 [E2 [H2 _]]]].
  destruct (itoa_first_digit _ Hm) as [c3 [r3 [E3 [H3 _]]]].
  destruct (0 <? Z.quot s 86400); [now apply digit_not_E |].
  destruct (0 <? Z.quot (Z.rem s 86400) 3600).
  - rewrite E2. now apply digit_not_E.
  - rewrite E3. now apply digit_not_E.
Qed.

(** X8.  The label never shows seconds: under a minute it reads "0m", from a
    minute on it depends on the whole minutes only, and from a day on on
    the whole hours only.  It reads "Expired" exactly for the inputs that
    are not positive. *)
Theorem formatTimeLeft_granularity (s : Z) :
  (0 < s < 60 -> formatTimeLeft s = "0m") /\
  (60 <= s -> formatTimeLeft s = formatTimeLeft (s - Z.rem s 60)) /\
  (86400 <= s -> formatTimeLeft s = formatTimeLeft (s - Z.rem s 3600)) /\
  (formatTimeLeft s = "Expired" <-> s <= 0).
Proof.
  repeat split.
  - intros Hs. unfold formatTimeLeft.
    assert (Hle : (s <=? 0) = false) by (apply Z.leb_gt; lia). rewrite Hle.
    assert (Hd : Z.quot s 86400 = 0) by (Z.quot_rem_to_equations; lia).
    assert (Hh : Z.quot (Z.rem s 86400) 3600 = 0)
      by (Z.quot_rem_to_equations; lia).
    assert (Hm : Z.quot (Z.rem s 3600) 60 = 0)
      by (Z.quot_rem_to_equations; lia).
    cbv zeta. rewrite Hd, Hh, Hm. reflexivity.
  - intros Hs. unfold formatTimeLeft.
    assert (Hle : (s <=? 0) = false) by (apply Z.leb_gt; lia).
    assert (Hle' : (s - Z.rem s 60 <=? 0) = false)
      by (apply Z.leb_gt; Z.quot_rem_to_equations; lia).
    rewrite Hle, Hle'.
    assert (Hd : Z.quot (s - Z.rem s 60) 86400 = Z.quot s 86400)
      by (Z.quot_rem_to_equations; lia).
    assert (Hh : Z.quot (Z.rem (s - Z.rem s 60) 86400) 3600 =
                 Z.quot (Z.rem s 86400) 3600)
      by (Z.quot_rem_to_equations; lia).
    assert (Hm : Z.quot (Z.rem (s - Z.rem s 60) 3600) 60 =
                 Z.quot (Z.rem s 3600) 60)
      by (Z.quot_rem_to_equations; lia).
    cbv zeta. rewrite Hd, Hh, Hm. reflexivity.
  - intros Hs. unfold formatTimeLeft.
    assert (Hle : (s <=? 0) = false) by (apply Z.leb_gt; lia).
    assert (Hle' : (s - Z.rem s 3600 <=? 0) = false)
      by (apply Z.leb_gt; Z.quot_rem_to_equations; lia).
    rewrite Hle, Hle'.
    assert (Hd : Z.quot (s - Z.rem s 3600) 86400 = Z.quot s 86400)
      by (Z.quot_rem_to_equations; lia).
    assert (Hh : Z.quot (Z.rem (s - Z.rem s 3600) 86400) 3600 =
                 Z.quot (Z.rem s 86400) 3600)
      by (Z.quot_rem_to_equations; lia).
    assert (Hpos : (0 <? Z.quot s 86400) = true)
      by (apply Z.ltb_lt; Z.quot_rem_to_equations; lia).
    cbv zeta. rewrite Hd, Hh, Hpos. reflexivity.
  - intros H. destruct (Z.le_gt_cases s 0) as [Hle | Hgt]; [exact Hle |].
    exfalso. apply (formatTimeLeft_live s); [lia | exact H].
  - apply formatTimeLeft_expired.
Qed.

Lemma formatTimeLeft_granularity_witness :
  formatTimeLeft 59 = "0m" /\
  formatTimeLeft 3659 = formatTimeLeft (3659 - Z.rem 3659 60) /\
  formatTimeLeft 90000 = formatTimeLeft (90000 - Z.rem 90000 3600).
Proof.
  destruct (formatTimeLeft_granularity 59) as [H1 _].
  destruct (formatTimeLeft_granularity 3659) as [_ [H2 _]].
  destruct (formatTimeLeft_granularity 90000) as [_ [_ [H3 _]]].
  split; [apply H1; lia | split; [apply H2; lia | apply H3; lia]].
Defined.



(** * The script of the page *)

(** ** Strings *)

Lemma append_assoc (a b c : string) :
  ((a ++ b) ++ c = a ++ (b ++ c))%string.
Proof. induction a as [| x a IH]; simpl; [reflexivity | now rewrite IH]. Qed.

Lemma append_empty_r (a : string) : (a ++ "")%string = a.
Proof. induction a as [| x a IH]; simpl; [reflexivity | now rewrite IH]. Qed.

(** A decimal digit is no white space, no sign and no letter, and has in
    radix 10 the value [Strconv.digit] gives it. *)
Lemma digit_facts c :
  is_digit c = true ->
  Js.is_space c = false /\ Ascii.eqb c " " = false /\
  Ascii.eqb c "-" = false /\ Ascii.eqb c "+" = false /\
  Ascii.eqb c "x" = false /\ Ascii.eqb c "X" = false /\
  Js.digit_value 10 c = Strconv.digit c.
Proof.
  destruct c as [[] [] [] [] [] [] [] []]; intros H;
    try discriminate H; repeat split; reflexivity.
Qed.

Lemma digit_value_none c :
  is_digit c = false -> Js.digit_value 10 c = None.
Proof.
  destruct c as [[] [] [] [] [] [] [] []]; intros H;
    try discriminate H; reflexivity.
Qed.

Lemma digit_differs x u :
  is_digit x = true -> is_digit u = false -> Ascii.eqb x u = false.
Proof.
  intros Hx Hu. destruct (Ascii.eqb_spec x u) as [-> |]; [congruence | reflexivity].
Qed.

Lemma includes_app a b c :
  Js.includes (a ++ b) c = Js.includes a c || Js.includes b c.
Proof.
  induction a as [| x a IH]; simpl; [reflexivity |].
  now rewrite IH, orb_assoc.
Qed.

Lemma includes_digits w u :
  forallb is_digit (list_ascii_of_string w) = true ->
  is_digit u = false ->
  Js.includes w u = false.
Proof.
  intros Hw Hu. induction w as [| x w IH]; simpl in *; [reflexivity |].
  apply andb_true_iff in Hw. destruct Hw as [Hx Hw].
  now rewrite (digit_differs x u Hx Hu), IH.
Qed.

Lemma split_space_single w :
  Js.includes w " " = false -> Js.split_space w = [w].
Proof.
  induction w as [| c w IH]; simpl; [reflexivity |].
  intros H. apply orb_false_iff in H. destruct H as [Hc Hw].
  now rewrite Hc, (IH Hw).
Qed.

Lemma split_space_word w rest :
  Js.includes w " " = false ->
  Js.split_space (w ++ String " " rest) = w :: Js.split_space rest.
Proof.
  induction w as [| c w IH]; simpl; [reflexivity |].
  intros H. apply orb_false_iff in H. destruct H as [Hc Hw].
  now rewrite Hc, (IH Hw).
Qed.

(** ** Numerals as the script reads them *)

Lemma itoa_numeral x :
  0 <= x ->
  exists c rest,
    GoInt.itoa x = String c rest /\ is_digit c = true /\
    forallb is_digit (list_ascii_of_string rest) = true /\
    Strconv.digits 0 (String c rest) = Some x.
Proof.
  intros Hx. unfold GoInt.itoa. destruct x as [| p | p]; [| | lia].
  - exists "0"%char, "". repeat split.
  - destruct (numeral_pos p) as [c [rest H]]. exists c, rest.
    cbn [Z.to_int NilZero.string_of_int]. exact H.
Qed.

Lemma scan_digits_word w acc v u rest :
  forallb is_digit (list_ascii_of_string w) = true ->
  Strconv.digits acc w = Some v ->
  is_digit u = false ->
  Js.scan_digits 10 acc (w ++ String u rest) = v.
Proof.
  revert acc. induction w as [| c w IH]; intros acc Hw Hv Hu.
  - simpl in *. rewrite (digit_value_none u Hu). congruence.
  - simpl in Hw. apply andb_true_iff in Hw. destruct Hw as [Hc Hw].
    destruct (digit_facts c Hc) as (_ & _ & _ & _ & _ & _ & Hval).
    cbn [append Js.scan_digits Strconv.digits] in *. rewrite Hval.
    destruct (Strconv.digit c) as [d |]; [| discriminate].
    now apply IH.
Qed.

(** A numeral followed by a letter that is no digit, no [x] and no [X]
    is read by parseInt as the number. *)
Lemma parseInt_word x u rest :
  0 <= x ->
  is_digit u = false ->
  Ascii.eqb u "x" = false -> Ascii.eqb u "X" = false ->
  Js.parseInt (GoInt.itoa x ++ String u rest) = Js.Int x.
Proof.
  intros Hx Hu Hux HuX.
  destruct (itoa_numeral x Hx) as [c [r [-> [Hc [Hr Hval]]]]].
  destruct (digit_facts c Hc) as (Hsp & _ & Hm & Hp & _ & _ & Hdv).
  unfold Js.parseInt. cbn [append Js.trim_start]. rewrite Hsp, Hm, Hp.
  cbn [snd fst].
  assert (Hbase :
            match (r ++ String u rest)%string with
            | String c1 s' =>
                if Ascii.eqb c "0" && (Ascii.eqb c1 "x" || Ascii.eqb c1 "X")
                then (16, s')
                else (10, String c (r ++ String u rest))
            | EmptyString => (10, String c (r ++ String u rest))
            end = (10, String c (r ++ String u rest))).
  { destruct r as [| c1 r']; cbn [append].
    - now rewrite Hux, HuX, andb_false_r.
    - simpl in Hr. apply andb_true_iff in Hr. destruct Hr as [Hc1 _].
      destruct (digit_facts c1 Hc1) as (_ & _ & _ & _ & Hx1 & HX1 & _).
      now rewrite Hx1, HX1, andb_false_r. }
  rewrite Hbase. cbn [fst snd Js.starts_with_digit]. rewrite Hdv.
  assert (Hd : exists d, Strconv.digit c = Some d).
  { unfold is_digit in Hc. destruct (Strconv.digit c) as [d |];
      [now exists d | discriminate]. }
  destruct Hd as [d Hd]. rewrite Hd.
  change (String c (r ++ String u rest)) with (String c r ++ String u rest)%string.
  rewrite (scan_digits_word (String c r) 0 x u rest); [f_equal; lia | | exact Hval | exact Hu].
  cbn [list_ascii_of_string forallb]. now rewrite Hc, Hr.
Qed.

(** What the script finds in a numeral followed by a unit letter. *)
Lemma includes_word x u c :
  0 <= x -> is_digit c = false ->
  Js.includes (GoInt.itoa x ++ String u "") c = Ascii.eqb u c.
Proof.
  intros Hx Hc.
  destruct (itoa_numeral x Hx) as [c0 [r [-> [Hc0 [Hr _]]]]].
  rewrite includes_app, includes_digits; [simpl; now rewrite orb_false_r | | exact Hc].
  cbn [list_ascii_of_string forallb]. now rewrite Hc0, Hr.
Qed.

(** ** Sorting by the time-left column *)

(** X16.  What the script makes of the labels the server sends.  The pieces of
    a label are numerals with their unit letter attached, while the loop
    takes them in pairs, a value and then a unit: of "2d 5h" it reads the
    value 2 and finds the unit in "5h".  So a label of days and hours
    counts its days as hours, a label of hours and minutes counts its
    hours as minutes, and a label of minutes alone makes the function
    throw.  The bound keeps the numbers where the script computes
    exactly. *)
Theorem parseTimeLeftToSeconds_of_label (s : Z) :
  s < 2 ^ 53 ->
  (s <= 0 ->
   Js.parseTimeLeftToSeconds (formatTimeLeft s) = Js.Return (Js.Int (-1))) /\
  (0 < s < 3600 ->
   Js.parseTimeLeftToSeconds (formatTimeLeft s) = Js.TypeError) /\
  (3600 <= s < 86400 ->
   Js.parseTimeLeftToSeconds (formatTimeLeft s) =
     Js.Return (Js.Int (60 * (s / 3600)))) /\
  (86400 <= s ->
   Js.parseTimeLeftToSeconds (formatTimeLeft s) =
     Js.Return (Js.Int (3600 * (s / 86400)))).
Proof.
  intros _.
  assert (Hlive : 0 < s ->
            Js.parseTimeLeftToSeconds (formatTimeLeft s) =
            Js.parts_loop (Js.split_space (formatTimeLeft s)) (Js.Int 0)).
  { intros Hs. unfold Js.parseTimeLeftToSeconds.
    pose proof (formatTimeLeft_live s Hs) as Hne.
    apply String.eqb_neq in Hne. now rewrite Hne. }
  assert (Hword : forall x u,
            0 <= x -> is_digit u = false -> Ascii.eqb u " " = false ->
            Js.includes (GoInt.itoa x ++ String u "") " " = false).
  { intros x u Hx Hu Hsp. rewrite includes_word; [exact Hsp | exact Hx |].
    reflexivity. }
  repeat split.
  - intros Hs. now rewrite formatTimeLeft_expired.
  - intros Hs. rewrite Hlive by lia. unfold formatTimeLeft.
    assert (Hle : (s <=? 0) = false) by (apply Z.leb_gt; lia). rewrite Hle.
    assert (Hd : Z.quot s 86400 = 0) by (Z.quot_rem_to_equations; lia).
    assert (Hh : Z.quot (Z.rem s 86400) 3600 = 0)
      by (Z.quot_rem_to_equations; lia).
    cbv zeta. rewrite Hd, Hh. cbn [Z.ltb Z.compare].
    rewrite split_space_single; [reflexivity |].
    apply Hword; [Z.quot_rem_to_equations; lia | reflexivity | reflexivity].
  - intros Hs. rewrite Hlive by lia. unfold formatTimeLeft.
    assert (Hle : (s <=? 0) = false) by (apply Z.leb_gt; lia). rewrite Hle.
    assert (Hd : Z.quot s 86400 = 0) by (Z.quot_rem_to_equations; lia).
    assert (Hh : Z.quot (Z.rem s 86400) 3600 = s / 3600)
      by (Z.quot_rem_to_equations; Z.div_mod_to_equations; lia).
    assert (Hpos : (0 <? s / 3600) = true)
      by (apply Z.ltb_lt; Z.div_mod_to_equations; lia).
    assert (Hm : 0 <= Z.quot (Z.rem s 3600) 60)
      by (Z.quot_rem_to_equations; lia).
    assert (Hh0 : 0 <= s / 3600) by (Z.div_mod_to_equations; lia).
    cbv zeta. rewrite Hd, Hh, Hpos. cbn [Z.ltb Z.compare].
    set (m := Z.quot (Z.rem s 3600) 60) in *.
    replace (GoInt.itoa (s / 3600) ++ "h " ++ GoInt.itoa m ++ "m")%string
      with ((GoInt.itoa (s / 3600) ++ "h") ++
            String " " (GoInt.itoa m ++ "m"))%string
      by (rewrite append_assoc; reflexivity).
    rewrite split_space_word by (apply Hword; [exact Hh0 | reflexivity ..]).
    rewrite split_space_single by (apply Hword; [exact Hm | reflexivity ..]).
    cbn [Js.parts_loop].
    rewrite (parseInt_word (s / 3600) "h" "") by (trivial; reflexivity).
    rewrite !includes_word by (trivial; reflexivity).
    cbn [Ascii.eqb Bool.eqb Js.add Js.mul]. f_equal. f_equal. lia.
  - intros Hs. rewrite Hlive by lia. unfold formatTimeLeft.
    assert (Hle : (s <=? 0) = false) by (apply Z.leb_gt; lia). rewrite Hle.
    assert (Hd : Z.quot s 86400 = s / 86400)
      by (Z.quot_rem_to_equations; Z.div_mod_to_equations; lia).
    assert (Hpos : (0 <? s / 86400) = true)
      by (apply Z.ltb_lt; Z.div_mod_to_equations; lia).
    assert (Hh : 0 <= Z.quot (Z.rem s 86400) 3600)
      by (Z.quot_rem_to_equations; lia).
    assert (Hd0 : 0 <= s / 86400) by (Z.div_mod_to_equations; lia).
    cbv zeta. rewrite Hd, Hpos.
    set (h := Z.quot (Z.rem s 86400) 3600) in *.
    replace (GoInt.itoa (s / 86400) ++ "d " ++ GoInt.itoa h ++ "h")%string
      with ((GoInt.itoa (s / 86400) ++ "d") ++
            String " " (GoInt.itoa h ++ "h"))%string
      by (rewrite append_assoc; reflexivity).
    rewrite split_space_word by (apply Hword; [exact Hd0 | reflexivity ..]).
    rewrite split_space_single by (apply Hword; [exact Hh | reflexivity ..]).
    cbn [Js.parts_loop].
    rewrite (parseInt_word (s / 86400) "d" "") by (trivial; reflexivity).
    rewrite !includes_word by (trivial; reflexivity).
    cbn [Ascii.eqb Bool.eqb Js.add Js.mul]. f_equal. f_equal. lia.
Qed.

Lemma parseTimeLeftToSeconds_of_label_witness :
  Js.parseTimeLeftToSeconds (formatTimeLeft 0) = Js.Return (Js.Int (-1)) /\
  Js.parseTimeLeftToSeconds (formatTimeLeft 120) = Js.TypeError /\
  Js.parseTimeLeftToSeconds (formatTimeLeft 5000) = Js.Return (Js.Int 60) /\
  Js.parseTimeLeftToSeconds (formatTimeLeft 90000) = Js.Return (Js.Int 3600).
Proof.
  destruct (parseTimeLeftToSeconds_of_label 0) as [H1 _]; [reflexivity |].
  destruct (parseTimeLeftToSeconds_of_label 120) as [_ [H2 _]]; [reflexivity |].
  destruct (parseTimeLeftToSeconds_of_label 5000) as [_ [_ [H3 _]]];
    [reflexivity |].
  destruct (parseTimeLeftToSeconds_of_label 90000) as [_ [_ [_ H4]]];
    [reflexivity |].
  split; [apply H1; lia |].
  split; [apply H2; lia |].
  split; [apply H3; lia | apply H4; lia].
Defined.

(** ** Trimming *)

Lemma trim_end_app a b :
  Js.trim_end b <> "" -> Js.trim_end (a ++ b) = (a ++ Js.trim_end b)%string.
Proof.
  intros Hb. induction a as [| c a IH]; [reflexivity |].
  cbn [append Js.trim_end]. rewrite IH.
  destruct (a ++ Js.trim_end b)%string eqn:E; [| reflexivity].
  exfalso. destruct a; simpl in E; [now apply Hb | discriminate].
Qed.

Lemma trim_end_space a : Js.trim_end (a ++ " ") = Js.trim_end a.
Proof.
  induction a as [| c a IH]; [reflexivity |].
  cbn [append Js.trim_end]. now rewrite IH.
Qed.

Lemma tight_trim w :
  tight w -> Js.trim w = w /\ Js.trim (w ++ " ") = w.
Proof.
  intros [[c [r [-> Hc]]] Hend]. unfold Js.trim.
  cbn [append Js.trim_start]. rewrite Hc. split; [exact Hend |].
  change (String c (r ++ " ")) with (String c r ++ " ")%string.
  now rewrite trim_end_space.
Qed.

Lemma tight_join a b : tight a -> tight b -> tight (a ++ " " ++ b).
Proof.
  intros [[c [r [-> Hc]]] Ha] [[c' [r' [-> Hc']]] Hb]. split.
  - exists c, (r ++ " " ++ String c' r')%string. split; [reflexivity | exact Hc].
  - rewrite trim_end_app.
    + cbn [append Js.trim_end] in *. now rewrite Hb.
    + cbn [append Js.trim_end] in *. rewrite Hb. discriminate.
Qed.

Lemma tight_word x u :
  0 <= x -> Js.is_space u = false -> tight (GoInt.itoa x ++ String u "").
Proof.
  intros Hx Hu. destruct (itoa_first_digit x Hx) as [c [r [-> [Hc _]]]].
  destruct (digit_facts c Hc) as [Hsp _]. split.
  - exists c, (r ++ String u "")%string. split; [reflexivity | exact Hsp].
  - rewrite trim_end_app; cbn [Js.trim_end]; rewrite Hu;
      [reflexivity | discriminate].
Qed.

(** ** Amounts of money *)

(** X17.  formatGold shows an amount of [g] gold, [s] silver and [c] copper as
    its units that are not zero, largest first, each as its numeral and
    letter, with single spaces between them and none around. *)
Theorem formatGold_spec (g s c : Z) :
  0 <= g -> 0 <= s < 100 -> 0 <= c < 100 ->
  0 < g * 10000 + s * 100 + c < 2 ^ 53 ->
  Js.formatGold (g * 10000 + s * 100 + c) =
  String.concat " " (gold_parts g s c).
Proof.
  intros Hg Hs Hc [Hpos _]. unfold Js.formatGold, gold_parts.
  assert (Hz : (g * 10000 + s * 100 + c =? 0) = false)
    by (apply Z.eqb_neq; lia).
  assert (Hgold : (g * 10000 + s * 100 + c) / 10000 = g)
    by (Z.div_mod_to_equations; lia).
  assert (Hsilver : Z.rem (g * 10000 + s * 100 + c) 10000 / 100 = s)
    by (Z.quot_rem_to_equations; Z.div_mod_to_equations; lia).
  assert (Hcopper : Z.rem (g * 10000 + s * 100 + c) 100 = c)
    by (Z.quot_rem_to_equations; lia).
  rewrite Hz. cbv zeta. rewrite Hgold, Hsilver, Hcopper.
  pose proof (tight_word g "g" Hg eq_refl) as Tg.
  pose proof (tight_word s "s" (proj1 Hs) eq_refl) as Ts.
  pose proof (tight_word c "c" (proj1 Hc) eq_refl) as Tc.
  assert (Hne : forall x u rest,
             0 <= x -> String.eqb (GoInt.itoa x ++ String u rest) "" = false).
  { intros x u rest Hx.
    destruct (itoa_first_digit x Hx) as [c0 [r0 [-> _]]]. reflexivity. }
  pose proof (proj1 Hs) as Hs0. pose proof (proj1 Hc) as Hc0.
  destruct (Z.ltb_spec 0 g) as [Pg | Ng], (Z.ltb_spec 0 s) as [Ps | Ns],
    (Z.ltb_spec 0 c) as [Pc | Nc];
    cbn [append app String.concat orb];
    rewrite ?append_assoc; cbn [append]; rewrite ?Hne by assumption;
    cbn [orb]; try lia.
  - transitivity (Js.trim ((GoInt.itoa g ++ "g") ++ " " ++
                           (GoInt.itoa s ++ "s") ++ " " ++
                           (GoInt.itoa c ++ "c")));
      [f_equal; rewrite ?append_assoc; reflexivity |].
    rewrite (proj1 (tight_trim _ (tight_join _ _ Tg (tight_join _ _ Ts Tc)))).
    rewrite ?append_assoc. reflexivity.
  - transitivity (Js.trim (((GoInt.itoa g ++ "g") ++ " " ++
                            (GoInt.itoa s ++ "s")) ++ " "));
      [f_equal; rewrite ?append_assoc; reflexivity |].
    rewrite (proj2 (tight_trim _ (tight_join _ _ Tg Ts))).
    rewrite ?append_assoc. reflexivity.
  - transitivity (Js.trim ((GoInt.itoa g ++ "g") ++ " " ++
                           (GoInt.itoa c ++ "c")));
      [f_equal; rewrite ?append_assoc; reflexivity |].
    rewrite (proj1 (tight_trim _ (tight_join _ _ Tg Tc))).
    rewrite ?append_assoc. reflexivity.
  - transitivity (Js.trim ((GoInt.itoa g ++ "g") ++ " "));
      [f_equal; rewrite ?append_assoc; reflexivity |].
    rewrite (proj2 (tight_trim _ Tg)). reflexivity.
  - transitivity (Js.trim ((GoInt.itoa s ++ "s") ++ " " ++
                           (GoInt.itoa c ++ "c")));
      [f_equal; rewrite ?append_assoc; reflexivity |].
    rewrite (proj1 (tight_trim _ (tight_join _ _ Ts Tc))).
    rewrite ?append_assoc. reflexivity.
  - transitivity (Js.trim ((GoInt.itoa s ++ "s") ++ " "));
      [f_equal; rewrite ?append_assoc; reflexivity |].
    rewrite (proj2 (tight_trim _ Ts)). reflexivity.
  - rewrite (proj1 (tight_trim _ Tc)). reflexivity.
Qed.

Lemma formatGold_spec_witness :
  Js.formatGold (3 * 10000 + 0 * 100 + 7) = "3g 7c".
Proof.
  apply (formatGold_spec 3 0 7); lia.
Defined.

(** * More on rows and terms *)

Lemma scan_auction_error_kind r err :
  scan_auction r = inl err ->
  (exists i, err = ScanNull i) \/ (exists i, err = ScanRange i).
Proof.
  unfold scan_auction, bind, scan_int, scan_string.
  repeat match goal with
         | |- context [if ?c then _ else _] =>
             destruct c; [| intros [= <-]; right; eexists; reflexivity]
         | |- context [match ?x with Some _ => _ | None => _ end] =>
             destruct x; [| intros [= <-]; left; eexists; reflexivity]
         end.
  discriminate.
Qed.

Lemma scan_auctions_logged clock i js err :
  In err (logged_of (snd (scan_auctions clock i (map Sql.select_listing js)))) ->
  exists j, In j js /\ scan_auction (Sql.select_listing j) = inl err.
Proof.
  revert i. induction js as [| j js IH]; intros i; simpl; [tauto |].
  destruct (scan_auction (Sql.select_listing j)) as [err0 | a] eqn:Hscan; simpl.
  - intros [<- | H].
    + exists j. tauto.
    + destruct (IH _ H) as [j' [Hin H']]. exists j'. tauto.
  - intros H. destruct (IH _ H) as [j' [Hin H']]. exists j'. tauto.
Qed.

(** X6.  A row of the listing or of a search is skipped for two reasons only:
    its item instance is missing, which shows as a NULL at column 10, or
    one of its numbers does not fit Go's [int].  A missing owner or a
    missing item template never costs a row. *)
Theorem skipped_rows (e : Env) (r : Request) (err : DbError) :
  In err (logged_of (snd (handleGetAuctions e r))) \/
  In err (logged_of (snd (handleSearch e r))) ->
  err = ScanNull 10 \/ exists i, err = ScanRange i.
Proof.
  assert (Hrow : forall i js,
             In err (logged_of (snd (scan_auctions (env_time_now e) i
                                       (map Sql.select_listing js)))) ->
             err = ScanNull 10 \/ exists i, err = ScanRange i).
  { intros i js H. apply scan_auctions_logged in H.
    destruct H as [j [_ Hscan]].
    destruct (scan_auction_error_kind _ _ Hscan) as [[k ->] | Hrange];
      [| now right].
    apply scan_auction_null in Hscan. destruct Hscan as [-> _]. now left. }
  intros [H | H]; revert H.
  - rewrite handleGetAuctions_page. cbn zeta. unfold db_Query.
    destruct (env_fault e _); [intros [] |].
    unfold Sql.listing_query. destruct ((50 <? 0) || _); [intros [] |].
    cbn [snd logged_of flat_map app]. apply Hrow.
  - unfold handleSearch. destruct (String.eqb _ ""); [intros [] |].
    unfold db_Query. destruct (env_fault e _); [intros [] |].
    unfold Sql.search_query. cbn [snd logged_of flat_map app]. apply Hrow.
Qed.

Lemma skipped_rows_witness :
  ScanNull 10 = ScanNull 10 \/ exists i, ScanNull 10 = ScanRange i.
Proof.
  apply (skipped_rows no_instance_env (mkRequest []) (ScanNull 10)).
  left. left. reflexivity.
Defined.

(** ** Wild cards in the term *)

Lemma like_all_percent p s :
  p <> [] -> forallb (fun c => Ascii.eqb c "%") p = true ->
  Sql.like_chars p s = true.
Proof.
  induction p as [| c p IH]; intros Hne Hall; [contradiction |].
  simpl in Hall. apply andb_true_iff in Hall. destruct Hall as [Hc Hp].
  apply Ascii.eqb_eq in Hc. subst c.
  destruct p as [| c' p'].
  - apply like_percent_only.
  - rewrite like_percent, IH; [reflexivity | discriminate | exact Hp].
Qed.

Lemma search_condition_percent term j :
  all_percent term = true ->
  Sql.search_condition ("%" ++ term ++ "%") ("%" ++ term ++ "%") j = named j.
Proof.
  intros Hall. unfold Sql.search_condition, named, Sql.like.
  assert (Hlike : forall s,
             Sql.like_chars (list_ascii_of_string ("%" ++ term ++ "%"))
               (list_ascii_of_string s) = true).
  { intros s. apply like_all_percent.
    - cbn [append list_ascii_of_string]. discriminate.
    - cbn [append list_ascii_of_string forallb].
      rewrite list_ascii_of_string_app, forallb_app. unfold all_percent in Hall.
      rewrite Hall. reflexivity. }
  destruct (Sql.j_it j), (Sql.j_c j); cbn [option_map]; rewrite ?Hlike;
    reflexivity.
Qed.

(** X13.  The term is not escaped: a term made of percent signs finds
    every live listing that has a name, that is, whose item template or
    whose owner's character the joins found.  The response holds the
    first hundred of them in order of ascending expiry, rows of equal
    expiry as the store returns them, when these rows scan; that order
    is a rearrangement of the named live rows, sorted by expiry. *)
Theorem handleSearch_percent (e : Env) (r : Request) :
  Get (URL_Query r) "q" <> "" ->
  all_percent (Get (URL_Query r) "q") = true ->
  env_fault e (QSearch ("%" ++ Get (URL_Query r) "q" ++ "%")
                       ("%" ++ Get (URL_Query r) "q" ++ "%")) = None ->
  forallb scannable
    (firstn 100
       (Sql.order_by Sql.time_asc (env_ties e 0)
          (named_listings (env_db e 0) (env_unix_timestamp e 0)))) = true ->
  exists found auctions,
    found =
      Sql.order_by Sql.time_asc (env_ties e 0)
        (named_listings (env_db e 0) (env_unix_timestamp e 0)) /\
    Permutation (named_listings (env_db e 0) (env_unix_timestamp e 0))
      found /\
    StronglySorted by_expiry found /\
    fst (handleSearch e r) = JsonSearch auctions (Get (URL_Query r) "q") /\
    Forall2 resolves (firstn 100 found) auctions.
Proof.
  intros Hne Hall Hfault Hscan.
  eexists. eexists. split; [reflexivity |].
  split; [apply order_by_perm |]. split; [apply order_by_expiry |].
  unfold handleSearch. apply String.eqb_neq in Hne. rewrite Hne.
  unfold db_Query. rewrite Hfault. unfold Sql.search_query.
  assert (Hrows :
            Sql.limit_rows 100
              (Sql.search_rows ("%" ++ Get (URL_Query r) "q" ++ "%")
                 ("%" ++ Get (URL_Query r) "q" ++ "%") (env_ties e 0)
                 (env_db e 0) (env_unix_timestamp e 0)) =
            firstn 100
              (Sql.order_by Sql.time_asc (env_ties e 0)
                 (named_listings (env_db e 0) (env_unix_timestamp e 0)))).
  { rewrite limit_rows_firstn. unfold Sql.search_rows, named_listings.
    change (Z.to_nat 100) with 100%nat. do 2 f_equal.
    apply filter_ext. intros j. now rewrite search_condition_percent. }
  rewrite Hrows. cbn [fst].
  destruct (scan_auctions_resolves (env_time_now e) 0 _ Hscan) as [Hres _].
  split; [reflexivity | exact Hres].
Qed.

Lemma handleSearch_percent_witness :
  exists auctions,
    fst (handleSearch market_env (request_with "q" "%")) =
      JsonSearch auctions "%" /\
    List.length auctions = 3%nat.
Proof.
  destruct (handleSearch_percent market_env (request_with "q" "%"))
    as [found [auctions [Hfound [_ [_ [Hresp Hall]]]]]]; try reflexivity.
  - discriminate.
  - subst found. exists auctions. split; [exact Hresp |].
    apply Forall2_length in Hall. rewrite <- Hall. reflexivity.
Defined.

(** ** Placeholders on the page *)

(** X18.  A listing whose item template is missing reaches the page as
    'Unknown Item' of level 0, and the page names its quality 'Poor':
    the placeholder 0 is also the index of that name. *)
Theorem missing_template_shown_poor (e : Env) (r : Request) (a : AuctionItem) :
  In a (auctions_of (fst (handleGetAuctions e r))) ->
  exists j,
    In j (Sql.listing_rows (env_ties e 0) (env_db e 0)
            (env_unix_timestamp e 0)) /\
    resolves j a /\
    (Sql.j_it j = None ->
     ItemName a = "Unknown Item" /\ ItemLevel a = 0 /\
     Js.getQualityName (Quality a) = "Poor").
Proof.
  rewrite handleGetAuctions_page. cbn zeta. unfold db_Query.
  destruct (env_fault e _); [intros [] |].
  unfold Sql.listing_query. destruct ((50 <? 0) || _); [intros [] |].
  cbn [fst auctions_of]. intros Ha.
  apply scanned_In in Ha. destruct Ha as [j [k [Hj [Hres _]]]].
  exists j. rewrite limit_rows_firstn, offset_rows_skipn in Hj.
  apply In_firstn, In_skipn in Hj.
  split; [exact Hj | split; [exact Hres |]].
  intros Hnone. destruct Hres as (_ & _ & _ & _ & Hname & Hq & Hl).
  rewrite Hnone in Hname, Hq, Hl. rewrite Hname, Hq, Hl. repeat split.
Qed.

Lemma missing_template_shown_poor_witness :
  exists j,
    In j (Sql.listing_rows (fun i => i) no_template_db 1000) /\
    resolves j
      (mkAuctionItem 1 7 100 5 15000 2000 0 0 10000 50 25
         "Unknown Item" "Thrall" 1 0 0 "16m").
Proof.
  destruct (missing_template_shown_poor no_template_env (mkRequest [])
              (mkAuctionItem 1 7 100 5 15000 2000 0 0 10000 50 25
                 "Unknown Item" "Thrall" 1 0 0 "16m"))
    as [j [Hin [Hres _]]].
  - left. reflexivity.
  - exists j. split; [exact Hin | exact Hres].
Defined.
